(** * The Tailwind configuration of deno_doc ([tailwind.config.ts])

    The module declares two colour constants, a colour table whose values
    are string literals or references to those constants, and a default
    export with four properties.  Two of the exported values are [RegExp]
    objects whose pattern text is assembled from [Object.keys] of the colour
    table.

    The development has three layers.
    - [RegExp]: the fragment of ECMAScript pattern syntax and of the
      backtracking matcher that the two patterns use (assertions [^] and
      [$], pattern characters, groups, alternation).
    - [JS]: strings built by template literals and [Array.prototype.join],
      objects, arrays and a heap in which the module allocates them.
    - [Config]: the module itself, statement by statement. *)

From Stdlib Require Import List String Ascii Bool Arith NArith Lia Permutation.
Import ListNotations.
Set Warnings "-register-all".
Local Open Scope list_scope.
Local Open Scope string_scope.

(* ------------------------------------------------------------------ *)
(** ** Regular expressions *)

Module RegExp.

(** Pattern syntax, after ECMA-262 22.2.1.  A [Disjunction] is a list of
    [Alternative]s separated by [|]; an [Alternative] is a sequence of
    [Term]s.  Quantifiers, character classes, escapes and the [(?...)] group
    forms are outside the fragment. *)
Inductive Term : Type :=
| AssertStart
| AssertEnd
| PatternCharacter (c : ascii)
| Group (d : list (list Term)).

Definition Alternative : Type := list Term.
Definition Disjunction : Type := list Alternative.

(** SyntaxCharacter :: one of [^ $ \ . * + ? ( ) [ ] { } |] *)
Definition SyntaxCharacter (c : ascii) : bool :=
  existsb (Ascii.eqb c)
    (list_ascii_of_string "^$\.*+?()[]{}|").

(** A text without syntax characters: it stands for itself in a pattern. *)
Definition plain (text : string) : bool :=
  negb (existsb SyntaxCharacter (list_ascii_of_string text)).

(** The parser reads the pattern left to right.  [frame] is the disjunction
    under construction: the alternatives already closed by a [|] and the
    terms of the current alternative, both most recent first.  [outer] holds
    the frames of the enclosing groups. *)
Record frame : Type := Frame { closed : list Alternative; current : list Term }.

Definition empty_frame : frame := Frame [] [].

Definition push_term (t : Term) (f : frame) : frame :=
  Frame (closed f) (t :: current f).

Definition next_alternative (f : frame) : frame :=
  Frame (rev (current f) :: closed f) [].

Definition finish (f : frame) : Disjunction :=
  rev (rev (current f) :: closed f).

Fixpoint parse_from (p : string) (outer : list frame) (f : frame)
  : option Disjunction :=
  match p with
  | EmptyString =>
      match outer with
      | [] => Some (finish f)
      | _ :: _ => None
      end
  | String c p' =>
      if Ascii.eqb c "(" then parse_from p' (f :: outer) empty_frame
      else if Ascii.eqb c ")" then
        match outer with
        | [] => None
        | g :: outer' => parse_from p' outer' (push_term (Group (finish f)) g)
        end
      else if Ascii.eqb c "|" then parse_from p' outer (next_alternative f)
      else if Ascii.eqb c "^" then parse_from p' outer (push_term AssertStart f)
      else if Ascii.eqb c "$" then parse_from p' outer (push_term AssertEnd f)
      else if SyntaxCharacter c then None
      else parse_from p' outer (push_term (PatternCharacter c) f)
  end.

(** [ParsePattern]: [None] stands for the SyntaxError of an ill-formed
    pattern and for a pattern outside the fragment. *)
Definition ParsePattern (p : string) : option Disjunction :=
  parse_from p [] empty_frame.

(** The matcher, after ECMA-262 22.2.2: a term is compiled to a function of
    a match state and a continuation.  The state is the end index together
    with the input from that index on.  Without flags [^] holds at index 0
    only and [$] at the end of the input only.  Captures are not recorded:
    the fragment has no backreference, so they cannot change whether a match
    exists. *)
Definition MatchState : Type := (nat * string)%type.
Definition MatcherContinuation : Type := MatchState -> bool.

Fixpoint matchTerm (t : Term) (k : MatcherContinuation) (x : MatchState)
  {struct t} : bool :=
  match t with
  | AssertStart => if Nat.eqb (fst x) 0 then k x else false
  | AssertEnd =>
      match snd x with
      | EmptyString => k x
      | String _ _ => false
      end
  | PatternCharacter c =>
      match snd x with
      | EmptyString => false
      | String ch rest => if Ascii.eqb c ch then k (S (fst x), rest) else false
      end
  | Group d =>
      (fix disjunction (d : list (list Term)) (k : MatcherContinuation)
           (x : MatchState) {struct d} : bool :=
         match d with
         | [] => false
         | a :: d' =>
             (fix alternative (a : list Term) (k : MatcherContinuation)
                  (x : MatchState) {struct a} : bool :=
                match a with
                | [] => k x
                | t' :: a' => matchTerm t' (alternative a' k) x
                end) a k x
             || disjunction d' k x
         end) d k x
  end.

Fixpoint matchAlternative (a : Alternative) (k : MatcherContinuation)
  (x : MatchState) : bool :=
  match a with
  | [] => k x
  | t :: a' => matchTerm t (matchAlternative a' k) x
  end.

Fixpoint matchDisjunction (d : Disjunction) (k : MatcherContinuation)
  (x : MatchState) : bool :=
  match d with
  | [] => false
  | a :: d' => matchAlternative a k x || matchDisjunction d' k x
  end.

(** The terms a run of pattern characters parses to, and the pattern
    [^pre(L1|...|Ln)post$]. *)
Definition characters (text : string) : Alternative :=
  map PatternCharacter (list_ascii_of_string text).

Definition anchored (pre : string) (labels : list string) (post : string)
  : Disjunction :=
  [AssertStart
   :: characters pre
   ++ Group (map characters labels) :: characters post ++ [AssertEnd]].

(** A RegExp object created without flags: the pattern text it was created
    from and the compiled pattern. *)
Record t : Type := Make { OriginalSource : string; RegExpMatcher : Disjunction }.

(** [new RegExp(pattern)] *)
Definition RegExpCreate (pattern : string) : option t :=
  option_map (Make pattern) (ParsePattern pattern).

(** The alternatives offered by the groups of a pattern. *)
Definition group_alternatives (R : t) : list Alternative :=
  flat_map
    (flat_map (fun term => match term with Group d => d | _ => [] end))
    (RegExpMatcher R).

(** [RegExpBuiltinExec] for a pattern that is neither global nor sticky:
    the match is tried at index 0, then at each later index up to the length
    of the input. *)
Fixpoint exec_from (d : Disjunction) (i : nat) (rest : string) : bool :=
  matchDisjunction d (fun _ => true) (i, rest)
  || match rest with
     | EmptyString => false
     | String _ rest' => exec_from d (S i) rest'
     end.

(** [RegExp.prototype.test] *)
Definition test (R : t) (s : string) : bool :=
  exec_from (RegExpMatcher R) 0 s.

End RegExp.

(* ------------------------------------------------------------------ *)
(** ** Strings, objects and the heap *)

Module JS.

Inductive error : Type := SyntaxError | TypeError | Unsupported.

Inductive result (A : Type) : Type :=
| Ok (a : A)
| Throw (e : error).
Arguments Ok {A} a.
Arguments Throw {A} e.

(** *** Strings *)

(** [Array.prototype.join] on the element strings: the separator goes
    between consecutive elements. *)
Fixpoint join (sep : string) (l : list string) : string :=
  match l with
  | [] => ""
  | s :: l' =>
      match l' with
      | [] => s
      | _ :: _ => s ++ sep ++ join sep l'
      end
  end.

(** SingleEscapeCharacter: the character a backslash followed by [c]
    stands for. *)
Definition SingleEscapeCharacter (c : ascii) : option ascii :=
  if Ascii.eqb c "b" then Some (ascii_of_nat 8)
  else if Ascii.eqb c "t" then Some (ascii_of_nat 9)
  else if Ascii.eqb c "n" then Some (ascii_of_nat 10)
  else if Ascii.eqb c "v" then Some (ascii_of_nat 11)
  else if Ascii.eqb c "f" then Some (ascii_of_nat 12)
  else if Ascii.eqb c "r" then Some (ascii_of_nat 13)
  else if existsb (Ascii.eqb c) (list_ascii_of_string "'\") then Some c
  else if Ascii.eqb c (ascii_of_nat 34) then Some c
  else None.

(** Characters that start a numeric, hexadecimal or unicode escape, and the
    line terminators of a line continuation: not in the fragment. *)
Definition other_escape (c : ascii) : bool :=
  existsb (Ascii.eqb c) (list_ascii_of_string "0123456789xu")
  || Ascii.eqb c (ascii_of_nat 10) || Ascii.eqb c (ascii_of_nat 13).

(** The cooked value (TV) of the raw characters of a template literal: a
    backslash and the character after it are replaced by what the escape
    stands for; a character that is no escape character stands for
    itself. *)
Fixpoint cook (raw : string) : result string :=
  match raw with
  | EmptyString => Ok EmptyString
  | String c raw' =>
      if Ascii.eqb c "\" then
        match raw' with
        | EmptyString => Throw SyntaxError
        | String e raw'' =>
            match SingleEscapeCharacter e with
            | Some ch =>
                match cook raw'' with
                | Ok s => Ok (String ch s)
                | Throw err => Throw err
                end
            | None =>
                if other_escape e then Throw Unsupported
                else
                  match cook raw'' with
                  | Ok s => Ok (String e s)
                  | Throw err => Throw err
                  end
            end
        end
      else
        match cook raw' with
        | Ok s => Ok (String c s)
        | Throw err => Throw err
        end
  end.

(** A template literal is a sequence of raw character spans and
    substitutions; a substitution holds the string its expression
    evaluated to. *)
Inductive TemplatePart : Type :=
| TemplateCharacters (raw : string)
| Substitution (s : string).

Fixpoint TemplateLiteral (parts : list TemplatePart) : result string :=
  match parts with
  | [] => Ok ""
  | part :: parts' =>
      match match part with
            | TemplateCharacters raw => cook raw
            | Substitution s => Ok s
            end with
      | Throw err => Throw err
      | Ok head =>
          match TemplateLiteral parts' with
          | Ok tail => Ok (head ++ tail)
          | Throw err => Throw err
          end
      end
  end.

(** *** Property keys *)

Definition digit (c : ascii) : option N :=
  let n := N_of_ascii c in
  if ((48 <=? n) && (n <=? 57))%N then Some (n - 48)%N else None.

Fixpoint decimal (s : string) (acc : N) : option N :=
  match s with
  | EmptyString => Some acc
  | String c s' =>
      match digit c with
      | Some d => decimal s' (10 * acc + d)%N
      | None => None
      end
  end.

(** An array index is the canonical decimal text of an integer below
    [2^32 - 1]. *)
Definition array_index (key : string) : option N :=
  match key with
  | EmptyString => None
  | String c rest =>
      if Ascii.eqb c "0" && negb (String.eqb rest "") then None
      else
        match decimal key 0 with
        | Some n => if (n <? 4294967295)%N then Some n else None
        | None => None
        end
  end.

Fixpoint insert_index (k : N * string) (l : list (N * string))
  : list (N * string) :=
  match l with
  | [] => [k]
  | k' :: l' =>
      if (fst k <=? fst k')%N then k :: l else k' :: insert_index k l'
  end.

Definition indexed (key : string) : list (N * string) :=
  match array_index key with
  | Some n => [(n, key)]
  | None => []
  end.

Definition is_array_index (key : string) : bool :=
  match array_index key with
  | Some _ => true
  | None => false
  end.

(** [OrdinaryOwnPropertyKeys], on the keys in order of creation: array
    indices first, in ascending numeric order, then the other string keys in
    order of creation. *)
Definition OrdinaryOwnPropertyKeys (created : list string) : list string :=
  map snd (fold_right insert_index [] (flat_map indexed created))
  ++ filter (fun key => negb (is_array_index key)) created.

(** *** Values and the heap *)

Definition loc : Type := nat.

Inductive val : Type :=
| VStr (s : string)
| VRef (l : loc).

Definition properties : Type := list (string * val).

Inductive object : Type :=
| Ordinary (props : properties)
| ArrayObject (elems : list val)
| RegExpObject (R : RegExp.t).

Definition heap : Type := list object.

(** [CreateDataProperty]: an existing key keeps its place and takes the new
    value, a new key goes last. *)
Fixpoint CreateDataProperty (props : properties) (key : string) (v : val)
  : properties :=
  match props with
  | [] => [(key, v)]
  | (key', v') :: props' =>
      if String.eqb key' key then (key', v) :: props'
      else (key', v') :: CreateDataProperty props' key v
  end.

(** Evaluation threads the heap and may throw. *)
Definition M (A : Type) : Type := heap -> result (A * heap).

Definition ret {A : Type} (a : A) : M A := fun h => Ok (a, h).

Definition bind {A B : Type} (m : M A) (f : A -> M B) : M B :=
  fun h =>
    match m h with
    | Ok (a, h') => f a h'
    | Throw e => Throw e
    end.

Definition throw {A : Type} (e : error) : M A := fun _ => Throw e.

Definition lift {A : Type} (r : result A) : M A :=
  fun h =>
    match r with
    | Ok a => Ok (a, h)
    | Throw e => Throw e
    end.

Declare Scope js_scope.
Delimit Scope js_scope with js.
Notation "x <- m ;; k" := (bind m (fun x => k))
  (at level 61, m at next level, right associativity) : js_scope.

Definition alloc (o : object) : M val :=
  fun h => Ok (VRef (List.length h), (h ++ [o])%list).

Definition deref (v : val) : M object :=
  fun h =>
    match v with
    | VStr _ => Throw TypeError
    | VRef l =>
        match nth_error h l with
        | Some o => Ok (o, h)
        | None => Throw TypeError
        end
    end.

(** An object literal: the property definitions are evaluated in order,
    each with [CreateDataProperty]. *)
Definition ObjectLiteral (definitions : properties) : M val :=
  alloc (Ordinary
           (fold_left (fun props kv => CreateDataProperty props (fst kv) (snd kv))
              definitions [])).

Definition ArrayLiteral (elems : list val) : M val :=
  alloc (ArrayObject elems).

(** [Object.keys(O)]: a new array of the own property keys of [O]. *)
Definition Object_keys (O : val) : M val :=
  (o <- deref O ;;
   match o with
   | Ordinary props =>
       ArrayLiteral (map VStr (OrdinaryOwnPropertyKeys (map fst props)))
   | _ => throw Unsupported
   end)%js.

Fixpoint strings (elems : list val) : option (list string) :=
  match elems with
  | [] => Some []
  | VStr s :: elems' => option_map (cons s) (strings elems')
  | VRef _ :: _ => None
  end.

(** [A.join(sep)] for an array of strings. *)
Definition Array_join (A : val) (sep : string) : M string :=
  (o <- deref A ;;
   match o with
   | ArrayObject elems =>
       match strings elems with
       | Some l => ret (join sep l)
       | None => throw Unsupported
       end
   | _ => throw Unsupported
   end)%js.

(** [new RegExp(pattern)]: throws when the pattern does not parse. *)
Definition new_RegExp (pattern : string) : M val :=
  match RegExp.RegExpCreate pattern with
  | Some R => alloc (RegExpObject R)
  | None => throw SyntaxError
  end.

(** *** Values read back from the heap *)

(** What is reachable from a value, as a tree: the shape a consumer sees
    when it walks the exported object. *)
Inductive value : Type :=
| Str (s : string)
| Arr (elems : list value)
| Obj (props : list (string * value))
| Rx (R : RegExp.t).

Fixpoint traverse {A B : Type} (f : A -> option B) (l : list A)
  : option (list B) :=
  match l with
  | [] => Some []
  | a :: l' =>
      match f a, traverse f l' with
      | Some b, Some bs => Some (b :: bs)
      | _, _ => None
      end
  end.

Fixpoint reify (fuel : nat) (h : heap) (v : val) : option value :=
  match v with
  | VStr s => Some (Str s)
  | VRef l =>
      match fuel with
      | O => None
      | S fuel' =>
          match nth_error h l with
          | None => None
          | Some (Ordinary props) =>
              option_map Obj
                (traverse
                   (fun kv => option_map (pair (fst kv)) (reify fuel' h (snd kv)))
                   props)
          | Some (ArrayObject elems) =>
              option_map Arr (traverse (reify fuel' h) elems)
          | Some (RegExpObject R) => Some (Rx R)
          end
      end
  end.

(** [read h v]: the tree below [v] in [h].  No chain of references in a
    heap without cycles is longer than the heap. *)
Definition read (h : heap) (v : val) : option value :=
  reify (List.length h) h v.

(** [steps m h old a new]: started in [h] extended by [old], [m] returns
    [a] and leaves [h] extended by [new]. *)
Definition steps {A : Type} (m : M A) (h : heap) (old : list object) (a : A)
  (new : list object) : Prop :=
  m (h ++ old)%list = Ok (a, (h ++ new)%list).

(** Property access on a tree. *)
Fixpoint lookup {A : Type} (key : string) (props : list (string * A))
  : option A :=
  match props with
  | [] => None
  | (key', a) :: props' =>
      if String.eqb key' key then Some a else lookup key props'
  end.

Definition get (v : value) (key : string) : option value :=
  match v with
  | Obj props => lookup key props
  | _ => None
  end.

Fixpoint get_path (v : value) (path : list string) : option value :=
  match path with
  | [] => Some v
  | key :: path' =>
      match get v key with
      | Some v' => get_path v' path'
      | None => None
      end
  end.

(** Property access in the heap: [v.key], and a chain of accesses. *)
Definition heap_get (h : heap) (v : val) (key : string) : option val :=
  match v with
  | VStr _ => None
  | VRef l =>
      match nth_error h l with
      | Some (Ordinary props) => lookup key props
      | _ => None
      end
  end.

Fixpoint heap_path (h : heap) (v : val) (path : list string) : option val :=
  match path with
  | [] => Some v
  | key :: path' =>
      match heap_get h v key with
      | Some v' => heap_path h v' path'
      | None => None
      end
  end.

(** [Object.keys] of a tree. *)
Definition keys (v : value) : list string :=
  match v with
  | Obj props => OrdinaryOwnPropertyKeys (map fst props)
  | _ => []
  end.

End JS.

(* ------------------------------------------------------------------ *)
(** ** The module [tailwind.config.ts] *)

Module Config.
Import JS.
Local Open Scope js_scope.

(** The two module-level constants. *)
Inductive Constant : Type := TAG_PURPLE | TAG_CYAN.

(** [const TAG_PURPLE = ...; const TAG_CYAN = ...;] *)
Definition declared (x : Constant) : string :=
  match x with
  | TAG_PURPLE => "#7B61FF"
  | TAG_CYAN => "#0CAFC6"
  end.

(** The value of a property of the colour table is written either as a
    string literal or as the name of a constant. *)
Inductive Initializer : Type :=
| Literal (s : string)
| Reference (x : Constant).

Definition evaluate (env : Constant -> string) (e : Initializer) : string :=
  match e with
  | Literal s => s
  | Reference x => env x
  end.

(** The property definitions of [extraColors], in source order. *)
Definition extraColors : list (string * Initializer) :=
  [ ("Function", Literal "#056CF0");
    ("Variable", Literal "#7E57C0");
    ("Class", Literal "#20B44B");
    ("Enum", Literal "#22ABB0");
    ("Interface", Literal "#D2A064");
    ("TypeAlias", Literal "#A4478C");
    ("Namespace", Literal "#D25646");
    ("new", Reference TAG_PURPLE);
    ("abstract", Reference TAG_CYAN);
    ("deprecated", Literal "#DC2626");
    ("writeonly", Reference TAG_PURPLE);
    ("readonly", Reference TAG_PURPLE);
    ("protected", Reference TAG_PURPLE);
    ("private", Reference TAG_PURPLE);
    ("optional", Reference TAG_CYAN);
    ("permissions", Reference TAG_CYAN);
    ("other", Literal "#57534E") ].

(** The two template literals of the safelist; [labels] is the value of
    [Object.keys(extraColors).join("|")]. *)
Definition text_template (labels : string) : list TemplatePart :=
  [TemplateCharacters "^text-("; Substitution labels; TemplateCharacters ")$"].

Definition bg_template (labels : string) : list TemplatePart :=
  [TemplateCharacters "^bg-("; Substitution labels; TemplateCharacters ")\/15$"].

(** The statements of the module after the constant declarations, as a
    function of the values of the constants.  [extraColors] is created
    first; the properties of the exported object are then evaluated in
    source order, each object or array being allocated once its parts are.
    ECMA-262 creates an object or array before it evaluates its parts, so
    the locations of the objects other than [extraColors] are not those of
    an engine; the tree read back from the result does not depend on them.
    The type assertion [as Config] leaves no code, and the import of line 1,
    which names a type only, is not part of this body. *)
Definition module_body (env : Constant -> string) : M val :=
  colors <- ObjectLiteral
              (map (fun kv => (fst kv, VStr (evaluate env (snd kv)))) extraColors) ;;
  content <- ArrayLiteral
               [VStr "./src/html/**/*.rs"; VStr "./src/html/templates/*.hbs"] ;;
  keys1 <- Object_keys colors ;;
  labels1 <- Array_join keys1 "|" ;;
  source1 <- lift (TemplateLiteral (text_template labels1)) ;;
  pattern1 <- new_RegExp source1 ;;
  entry1 <- ObjectLiteral [("pattern", pattern1)] ;;
  keys2 <- Object_keys colors ;;
  labels2 <- Array_join keys2 "|" ;;
  source2 <- lift (TemplateLiteral (bg_template labels2)) ;;
  pattern2 <- new_RegExp source2 ;;
  entry2 <- ObjectLiteral [("pattern", pattern2)] ;;
  safelist <- ArrayLiteral [entry1; entry2] ;;
  extend <- ObjectLiteral [("colors", colors)] ;;
  theme <- ObjectLiteral [("extend", extend)] ;;
  ObjectLiteral
    [("content", content); ("safelist", safelist); ("theme", theme);
     ("darkMode", VStr "class")].

(** Evaluation of the module. *)
Definition module_eval : M val := module_body declared.

(** The exported value as a consumer reads it: the module is evaluated in
    [h] and the result is walked. *)
Definition export_in (env : Constant -> string) (h : heap) : result value :=
  match module_body env h with
  | Throw e => Throw e
  | Ok (root, h') =>
      match read h' root with
      | Some v => Ok v
      | None => Throw TypeError
      end
  end.

Definition default_export_with (env : Constant -> string) : result value :=
  export_in env [].

Definition default_export : result value := default_export_with declared.

(** The parts of an exported value that the properties below speak of: the
    colour table under [theme.extend.colors] and the two patterns of the
    safelist. *)
Definition theme_colors (cfg : value) : option value :=
  get_path cfg ["theme"; "extend"; "colors"].

Definition safelist_patterns (cfg : value) : option (list RegExp.t) :=
  match get cfg "safelist" with
  | Some (Arr entries) =>
      traverse
        (fun entry =>
           match get entry "pattern" with
           | Some (Rx R) => Some R
           | _ => None
           end)
        entries
  | _ => None
  end.

Definition exports (cfg colors : value) (R1 R2 : RegExp.t) : Prop :=
  default_export = Ok cfg /\
  theme_colors cfg = Some colors /\
  safelist_patterns cfg = Some [R1; R2].

(** The colour table with its initializers evaluated. *)
Definition resolved (env : Constant -> string) : list (string * value) :=
  map (fun kv => (fst kv, Str (evaluate env (snd kv)))) extraColors.

(** Another value for one constant. *)
Definition Constant_eqb (x y : Constant) : bool :=
  match x, y with
  | TAG_PURPLE, TAG_PURPLE => true
  | TAG_CYAN, TAG_CYAN => true
  | _, _ => false
  end.

(** Whether an initializer is the name of the constant [x]. *)
Definition written_as (x : Constant) (e : Initializer) : bool :=
  match e with
  | Literal _ => false
  | Reference y => Constant_eqb x y
  end.

Definition replace (env : Constant -> string) (x : Constant) (v : string)
  : Constant -> string :=
  fun y => if Constant_eqb x y then v else env y.

(** A hexadecimal colour of six digits. *)
Definition hex_digit (c : ascii) : bool :=
  existsb (Ascii.eqb c) (list_ascii_of_string "0123456789abcdefABCDEF").

Definition hex_color6 (s : string) : bool :=
  match s with
  | String c digits =>
      Ascii.eqb c "#"
      && Nat.eqb (String.length digits) 6
      && forallb hex_digit (list_ascii_of_string digits)
  | EmptyString => false
  end.

End Config.

(* ------------------------------------------------------------------ *)
(** ** Facts about the matcher *)

Section Strings.

Lemma append_nil_right (s : string) : s ++ "" = s.
Proof. induction s as [|c s IH]; cbn; [reflexivity | now rewrite IH]. Qed.

Lemma append_assoc (a b c : string) : (a ++ b) ++ c = a ++ (b ++ c).
Proof. induction a as [|x a IH]; cbn; [reflexivity | now rewrite IH]. Qed.

End Strings.

Section Parser.
Import RegExp.

Lemma plain_String (c : ascii) (w : string) :
  plain (String c w) = true -> SyntaxCharacter c = false /\ plain w = true.
Proof.
  unfold plain. cbn [list_ascii_of_string existsb].
  rewrite negb_orb, andb_true_iff, !negb_true_iff. auto.
Qed.

(** A character that is no syntax character is read as a pattern
    character. *)
Lemma parse_from_PatternCharacter (c : ascii) (p : string) (outer : list frame)
  (f : frame) :
  SyntaxCharacter c = false ->
  parse_from (String c p) outer f
  = parse_from p outer (push_term (PatternCharacter c) f).
Proof.
  intros H. cbn [parse_from]. rewrite H.
  unfold SyntaxCharacter in H. cbn [list_ascii_of_string existsb] in H.
  repeat (apply orb_false_elim in H; destruct H as [? H]).
  repeat match goal with E : Ascii.eqb c _ = false |- _ => rewrite ?E; clear E end.
  reflexivity.
Qed.

Lemma parse_from_characters (w : string) :
  plain w = true ->
  forall (rest : string) (outer : list frame) (f : frame),
    parse_from (w ++ rest) outer f
    = parse_from rest outer
        (Frame (closed f) (rev (characters w) ++ current f)%list).
Proof.
  induction w as [|c w IH]; intros Hw rest outer f.
  - now destruct f.
  - apply plain_String in Hw. destruct Hw as [Hc Hw].
    cbn [append]. rewrite (parse_from_PatternCharacter _ _ _ _ Hc), (IH Hw).
    unfold characters. cbn [push_term closed current list_ascii_of_string map rev].
    now rewrite <- app_assoc.
Qed.

(** The labels joined by [|] and closed by [)] are read as one group that
    offers the labels in order. *)
Lemma parse_from_join (labels : list string) :
  labels <> [] ->
  Forall (fun L => plain L = true) labels ->
  forall (rest : string) (g : frame) (outer : list frame)
         (before : list Alternative),
    parse_from (JS.join "|" labels ++ String ")" rest) (g :: outer)
      (Frame before [])
    = parse_from rest outer
        (push_term (Group (rev before ++ map characters labels)%list) g).
Proof.
  induction labels as [|L labels IH]; intros Hne Hall rest g outer before;
    [congruence|].
  inversion Hall as [|? ? HL Hall']; subst.
  destruct labels as [|L' labels].
  - cbn [JS.join]. rewrite (parse_from_characters L HL).
    cbn [parse_from closed current Ascii.eqb Bool.eqb andb map].
    unfold finish. cbn [closed current rev].
    now rewrite app_nil_r, rev_involutive.
  - change (JS.join "|" (L :: L' :: labels))
      with (L ++ String "|" (JS.join "|" (L' :: labels))).
    rewrite append_assoc, (parse_from_characters L HL).
    cbn [append parse_from closed current Ascii.eqb Bool.eqb andb].
    unfold next_alternative. cbn [closed current].
    rewrite app_nil_r, rev_involutive.
    rewrite IH by (congruence || assumption).
    cbn [rev map]. now rewrite <- app_assoc.
Qed.

(** The pattern text [^pre(L1|...|Ln)post$] parses to [anchored]. *)
Lemma ParsePattern_anchored (pre post : string) (labels : list string) :
  plain pre = true -> plain post = true ->
  labels <> [] ->
  Forall (fun L => plain L = true) labels ->
  ParsePattern
    ("^" ++ pre ++ "(" ++ JS.join "|" labels ++ ")" ++ post ++ "$")
  = Some (anchored pre labels post).
Proof.
  intros Hpre Hpost Hne Hall. unfold ParsePattern.
  cbn [append parse_from Ascii.eqb Bool.eqb andb].
  rewrite (parse_from_characters pre Hpre).
  cbn [append parse_from Ascii.eqb Bool.eqb andb]. unfold empty_frame.
  rewrite (parse_from_join labels Hne Hall).
  rewrite (parse_from_characters post Hpost).
  cbn [parse_from Ascii.eqb Bool.eqb andb].
  unfold finish, push_term, empty_frame, anchored. cbn [closed current rev app].
  do 2 f_equal.
  rewrite !rev_app_distr. cbn [rev app].
  rewrite !rev_app_distr, !rev_involutive. cbn [rev app].
  now rewrite <- !app_assoc.
Qed.

End Parser.

Section Matcher.
Import RegExp.

Lemma matchTerm_Group (d : Disjunction) (k : MatcherContinuation) (x : MatchState) :
  matchTerm (Group d) k x = matchDisjunction d k x.
Proof. reflexivity. Qed.

(** A run of pattern characters consumes exactly its text. *)
Lemma match_characters (w : string) :
  forall (rest : Alternative) (k : MatcherContinuation) (i : nat) (s : string),
    matchAlternative (characters w ++ rest)%list k (i, s) = true <->
    exists s', s = w ++ s' /\
               matchAlternative rest k (i + String.length w, s') = true.
Proof.
  induction w as [|c w IH]; intros rest k i s.
  - cbn [characters list_ascii_of_string map app String.length].
    rewrite Nat.add_0_r. split.
    + intros H. exists s. split; [reflexivity | exact H].
    + intros (s' & E & H). cbn in E. subst s'. exact H.
  - change (characters (String c w) ++ rest)%list
      with (PatternCharacter c :: (characters w ++ rest))%list.
    cbn [matchAlternative matchTerm fst snd String.length].
    destruct s as [|ch r].
    + split; [discriminate | intros (s' & E & _); discriminate].
    + destruct (Ascii.eqb_spec c ch) as [->|Hne].
      * rewrite IH. rewrite Nat.add_succ_r.
        split; intros (s' & E & H); exists s'; split; try exact H.
        -- cbn. now rewrite E.
        -- cbn in E. now injection E.
      * split; [discriminate|].
        intros (s' & E & _). cbn in E. injection E as E1 _. congruence.
Qed.

(** An alternation of plain labels offers each label in turn. *)
Lemma match_labels (labels : list string) :
  forall (k : MatcherContinuation) (i : nat) (s : string),
    matchDisjunction (map characters labels) k (i, s) = true <->
    exists L s', In L labels /\ s = L ++ s' /\
                 k (i + String.length L, s') = true.
Proof.
  induction labels as [|L0 labels IH]; intros k i s.
  - cbn. split; [discriminate | intros (L & s' & [] & _)].
  - cbn [map matchDisjunction In]. rewrite orb_true_iff, IH.
    rewrite <- (app_nil_r (characters L0)), match_characters.
    cbn [matchAlternative]. split.
    + intros [(s' & E & H) | (L & s' & HL & E & H)].
      * exists L0, s'. auto.
      * exists L, s'. auto.
    + intros (L & s' & [<- | HL] & E & H).
      * left. exists s'. auto.
      * right. exists L, s'. auto.
Qed.

(** At index 0 the anchored pattern matches the strings [pre ++ L ++ post]
    and no other. *)
Lemma match_anchored (pre post : string) (labels : list string) (s : string) :
  matchDisjunction (anchored pre labels post) (fun _ => true) (0, s) = true <->
  exists L, In L labels /\ s = pre ++ L ++ post.
Proof.
  unfold anchored. cbn [matchDisjunction matchAlternative matchTerm fst Nat.eqb].
  rewrite orb_false_r, match_characters. split.
  - intros (s1 & -> & H).
    cbn [matchAlternative] in H. rewrite matchTerm_Group in H.
    apply match_labels in H. destruct H as (L & s2 & HL & -> & H).
    apply match_characters in H. destruct H as (s3 & -> & H).
    cbn [matchAlternative matchTerm snd] in H.
    destruct s3; [|discriminate].
    exists L. split; [exact HL|]. now rewrite append_nil_right.
  - intros (L & HL & ->). exists (L ++ post). split; [reflexivity|].
    cbn [matchAlternative]. rewrite matchTerm_Group.
    apply match_labels. exists L, post. split; [exact HL|].
    split; [reflexivity|].
    apply match_characters. exists "". split.
    + now rewrite append_nil_right.
    + reflexivity.
Qed.

(** Past index 0 the leading [^] fails. *)
Lemma anchored_later (pre post : string) (labels : list string) (s : string) :
  forall i, exec_from (anchored pre labels post) (S i) s = false.
Proof.
  induction s as [|c s IH]; intros i; cbn; [reflexivity | apply IH].
Qed.

Lemma test_anchored (R : RegExp.t) (pre post : string) (labels : list string) :
  RegExpMatcher R = anchored pre labels post ->
  forall s, test R s = true <-> exists L, In L labels /\ s = pre ++ L ++ post.
Proof.
  intros HR s. unfold test. rewrite HR.
  destruct s as [|c s]; cbn [exec_from].
  - rewrite orb_false_r. apply match_anchored.
  - rewrite anchored_later, orb_false_r. apply match_anchored.
Qed.

End Matcher.

(* ------------------------------------------------------------------ *)
(** ** Facts about evaluation in a heap *)

Section Heap.
Import JS.
Local Open Scope js_scope.

Lemma nth_error_new (h cs : list object) (k : nat) :
  nth_error (h ++ cs)%list (List.length h + k) = nth_error cs k.
Proof.
  rewrite nth_error_app2 by lia. f_equal. lia.
Qed.

Lemma steps_ret {A : Type} (a : A) (h cs : list object) :
  steps (ret a) h cs a cs.
Proof. reflexivity. Qed.

Lemma steps_bind {A B : Type} (m : M A) (f : A -> M B) (h cs cs1 cs2 : list object)
  (a : A) (b : B) :
  steps m h cs a cs1 -> steps (f a) h cs1 b cs2 -> steps (bind m f) h cs b cs2.
Proof.
  unfold steps, bind. intros -> H. exact H.
Qed.

Lemma steps_lift {A : Type} (r : result A) (a : A) (h cs : list object) :
  r = Ok a -> steps (lift r) h cs a cs.
Proof. intros ->. reflexivity. Qed.

Lemma steps_alloc (o : object) (h cs : list object) :
  steps (alloc o) h cs (VRef (List.length h + List.length cs)) (cs ++ [o])%list.
Proof.
  unfold steps, alloc. now rewrite length_app, app_assoc.
Qed.

Lemma steps_ObjectLiteral (definitions : properties) (h cs : list object) :
  steps (ObjectLiteral definitions) h cs
    (VRef (List.length h + List.length cs))
    (cs ++ [Ordinary
              (fold_left
                 (fun props kv => CreateDataProperty props (fst kv) (snd kv))
                 definitions [])])%list.
Proof. apply steps_alloc. Qed.

Lemma steps_ArrayLiteral (elems : list val) (h cs : list object) :
  steps (ArrayLiteral elems) h cs
    (VRef (List.length h + List.length cs)) (cs ++ [ArrayObject elems])%list.
Proof. apply steps_alloc. Qed.

Lemma steps_deref (k : nat) (o : object) (h cs : list object) :
  nth_error cs k = Some o ->
  steps (deref (VRef (List.length h + k))) h cs o cs.
Proof.
  intros H. unfold steps, deref. now rewrite nth_error_new, H.
Qed.

Lemma steps_Object_keys (k : nat) (props : properties) (h cs : list object) :
  nth_error cs k = Some (Ordinary props) ->
  steps (Object_keys (VRef (List.length h + k))) h cs
    (VRef (List.length h + List.length cs))
    (cs ++ [ArrayObject (map VStr (OrdinaryOwnPropertyKeys (map fst props)))])%list.
Proof.
  intros H. unfold Object_keys.
  eapply steps_bind; [apply steps_deref, H | apply steps_ArrayLiteral].
Qed.

Lemma steps_Array_join (k : nat) (elems : list val) (l : list string)
  (sep : string) (h cs : list object) :
  nth_error cs k = Some (ArrayObject elems) ->
  strings elems = Some l ->
  steps (Array_join (VRef (List.length h + k)) sep) h cs (join sep l) cs.
Proof.
  intros H Hl. unfold Array_join.
  eapply steps_bind; [apply steps_deref, H |].
  cbn beta iota. rewrite Hl. apply steps_ret.
Qed.

Lemma steps_new_RegExp (pattern : string) (R : RegExp.t) (h cs : list object) :
  RegExp.RegExpCreate pattern = Some R ->
  steps (new_RegExp pattern) h cs
    (VRef (List.length h + List.length cs)) (cs ++ [RegExpObject R])%list.
Proof.
  intros H. unfold new_RegExp. rewrite H. apply steps_alloc.
Qed.

(** Reading a fresh cell. *)
Lemma reify_new (fuel k : nat) (h cs : list object) :
  reify (S fuel) (h ++ cs)%list (VRef (List.length h + k)) =
  match nth_error cs k with
  | None => None
  | Some (Ordinary props) =>
      option_map Obj
        (traverse
           (fun kv =>
              option_map (pair (fst kv)) (reify fuel (h ++ cs)%list (snd kv)))
           props)
  | Some (ArrayObject elems) =>
      option_map Arr (traverse (reify fuel (h ++ cs)%list) elems)
  | Some (RegExpObject R) => Some (Rx R)
  end.
Proof.
  cbn [reify]. now rewrite nth_error_new.
Qed.

Lemma reify_VStr (fuel : nat) (h : heap) (s : string) :
  reify fuel h (VStr s) = Some (Str s).
Proof. destruct fuel; reflexivity. Qed.

End Heap.

(* ------------------------------------------------------------------ *)
(** ** Evaluation of the module *)

Section Evaluation.
Import JS Config.

Ltac step :=
  first
    [ apply steps_ObjectLiteral
    | apply steps_ArrayLiteral
    | eapply steps_Object_keys; reflexivity
    | eapply steps_Array_join; [reflexivity | lazy; reflexivity]
    | eapply steps_new_RegExp; lazy; reflexivity
    | eapply steps_lift; lazy; reflexivity ].

Ltac steps := repeat (eapply steps_bind; [step | cbn [List.length app]]); step.

(** In every heap the module runs to completion, allocates twelve objects
    and touches nothing else; what it returns reads back as the same tree
    whatever the heap was. *)
Lemma module_body_steps (env : Constant -> string) (h : heap) :
  exists (k : nat) (new : list object) (cfg : value),
    steps (module_body env) h [] (VRef (List.length h + k)) new /\
    List.length new = 12 /\
    reify (List.length new + List.length h) (h ++ new)%list
      (VRef (List.length h + k)) = Some cfg /\
    default_export_with env = Ok cfg.
Proof.
  do 3 eexists. split; [unfold module_body; steps |].
  split; [reflexivity |].
  split.
  - cbn [List.length app Nat.add].
    repeat (rewrite reify_new; cbn -[reify Nat.add]; rewrite ?reify_VStr).
    reflexivity.
  - lazy. reflexivity.
Qed.

End Evaluation.


Section Parts.
Import JS Config.

(** Reading a value does not depend on cells allocated later, nor on fuel
    beyond what was needed. *)
Lemma traverse_mono {A B : Type} (f g : A -> option B) (l : list A) :
  (forall a b, In a l -> f a = Some b -> g a = Some b) ->
  forall bs, traverse f l = Some bs -> traverse g l = Some bs.
Proof.
  induction l as [|a l IH]; intros Hfg bs; cbn [traverse].
  - auto.
  - destruct (f a) as [b|] eqn:Ea; [|discriminate].
    destruct (traverse f l) as [bs'|] eqn:El; [|discriminate].
    intros [= <-].
    rewrite (Hfg a b (or_introl eq_refl) Ea).
    rewrite (IH (fun a' b' Hin => Hfg a' b' (or_intror Hin)) bs' eq_refl).
    reflexivity.
Qed.

Lemma reify_mono (fuel : nat) :
  forall (h : heap) (v : val) (t : value),
    reify fuel h v = Some t ->
    forall (fuel' : nat) (ext : list object),
      fuel <= fuel' -> reify fuel' (h ++ ext)%list v = Some t.
Proof.
  induction fuel as [|fuel IH]; intros h v t H fuel' ext Hle.
  - destruct v; [|discriminate]. now rewrite reify_VStr in *.
  - destruct v as [s|l]; [now rewrite reify_VStr in * |].
    destruct fuel' as [|fuel']; [lia|].
    cbn [reify] in *.
    destruct (nth_error h l) as [o|] eqn:El; [|discriminate].
    rewrite nth_error_app1 by (apply nth_error_Some; congruence).
    rewrite El.
    destruct o as [props|elems|R]; [| |exact H].
    + destruct (traverse _ props) as [ps|] eqn:Et; [|discriminate].
      erewrite traverse_mono; [exact H | | exact Et].
      intros kv b _ Hb. cbv beta in *.
      destruct (reify fuel h (snd kv)) as [t'|] eqn:Er; [|discriminate].
      erewrite IH; [exact Hb | exact Er | lia].
    + destruct (traverse _ elems) as [es|] eqn:Et; [|discriminate].
      erewrite traverse_mono; [exact H | | exact Et].
      intros a b _ Hb. eapply IH; [exact Hb | lia].
Qed.

(** The exported value in an arbitrary heap is the exported value in the
    empty heap. *)
Lemma export_in_any_heap (env : Constant -> string) (h : heap) :
  export_in env h = default_export_with env.
Proof.
  destruct (module_body_steps env h) as (k & new & cfg & Hs & Hn & Hr & He).
  unfold export_in. unfold steps in Hs. rewrite app_nil_r in Hs.
  rewrite Hs. unfold read. rewrite length_app, Nat.add_comm, Hr.
  symmetry. exact He.
Qed.

End Parts.

(* ------------------------------------------------------------------ *)
(** ** The exported value *)

Section ExportedValue.
Import JS Config.

(** The shape of the exported value for any values of the two constants:
    only the colour table depends on them. *)
Lemma default_export_with_shape :
  exists R1 R2 : RegExp.t,
    RegExp.RegExpMatcher R1 = RegExp.anchored "text-" (map fst extraColors) "" /\
    RegExp.RegExpMatcher R2 = RegExp.anchored "bg-" (map fst extraColors) "/15" /\
    RegExp.OriginalSource R1
    = "^text-(" ++ join "|" (map fst extraColors) ++ ")$" /\
    RegExp.OriginalSource R2
    = "^bg-(" ++ join "|" (map fst extraColors) ++ ")/15$" /\
    forall env : Constant -> string,
      default_export_with env
      = Ok (Obj
              [("content",
                Arr [Str "./src/html/**/*.rs"; Str "./src/html/templates/*.hbs"]);
               ("safelist",
                Arr [Obj [("pattern", Rx R1)]; Obj [("pattern", Rx R2)]]);
               ("theme", Obj [("extend", Obj [("colors", Obj (resolved env))])]);
               ("darkMode", Str "class")]).
Proof.
  eexists (RegExp.Make _ _), (RegExp.Make _ _).
  cbn [RegExp.RegExpMatcher RegExp.OriginalSource].
  split; [reflexivity|]. split; [reflexivity|].
  split; [reflexivity|]. split; [reflexivity|].
  intros env. lazy. reflexivity.
Qed.

Lemma keys_resolved (env : Constant -> string) :
  keys (Obj (resolved env)) = map fst extraColors.
Proof. reflexivity. Qed.

Lemma NoDup_labels : NoDup (map fst extraColors).
Proof.
  repeat (constructor;
          [cbn; intros H; repeat destruct H as [H|H]; try discriminate H; exact H |]).
  constructor.
Qed.

Lemma lookup_map_In {A B : Type} (f : A -> B) (l : list (string * A)) :
  NoDup (map fst l) ->
  forall (key : string) (a : A),
    In (key, a) l ->
    lookup key (map (fun kv => (fst kv, f (snd kv))) l) = Some (f a).
Proof.
  induction l as [|[key0 a0] l IH]; intros Hnd key a Hin; [destruct Hin|].
  cbn [map fst snd lookup]. inversion Hnd as [|? ? Hnotin Hnd']; subst.
  destruct Hin as [[= -> ->] | Hin].
  - now rewrite String.eqb_refl.
  - destruct (String.eqb_spec key0 key) as [->|_].
    + exfalso. apply Hnotin. change key with (fst (key, a)). now apply in_map.
    + now apply IH.
Qed.

Lemma get_resolved (env : Constant -> string) (L : string) (e : Initializer) :
  In (L, e) extraColors ->
  get (Obj (resolved env)) L = Some (Str (evaluate env e)).
Proof.
  intros H. cbn [get]. unfold resolved.
  apply (lookup_map_In (fun e => Str (evaluate env e))); [apply NoDup_labels | exact H].
Qed.

(** The parts of the default export. *)
Lemma export_parts :
  exists (cfg : value) (R1 R2 : RegExp.t),
    exports cfg (Obj (resolved declared)) R1 R2 /\
    RegExp.RegExpMatcher R1 = RegExp.anchored "text-" (map fst extraColors) "" /\
    RegExp.RegExpMatcher R2 = RegExp.anchored "bg-" (map fst extraColors) "/15" /\
    RegExp.OriginalSource R1
    = "^text-(" ++ join "|" (map fst extraColors) ++ ")$" /\
    RegExp.OriginalSource R2
    = "^bg-(" ++ join "|" (map fst extraColors) ++ ")/15$".
Proof.
  destruct default_export_with_shape as (R1 & R2 & M1 & M2 & S1 & S2 & E).
  eexists _, R1, R2. split; [|repeat split; assumption].
  split; [apply E|]. split; reflexivity.
Qed.

Lemma characters_inj (a b : string) :
  RegExp.characters a = RegExp.characters b -> a = b.
Proof.
  unfold RegExp.characters. intros H.
  rewrite <- (string_of_list_ascii_of_string a).
  rewrite <- (string_of_list_ascii_of_string b).
  f_equal.
  revert H. generalize (list_ascii_of_string b).
  induction (list_ascii_of_string a) as [|c l IH]; intros [|c' l'] H;
    try discriminate H; [reflexivity|].
  cbn in H. injection H as -> H. f_equal. now apply IH.
Qed.

Lemma In_characters (L : string) (labels : list string) :
  In (RegExp.characters L) (map RegExp.characters labels) <-> In L labels.
Proof.
  rewrite in_map_iff. split.
  - intros (L' & E & H). apply characters_inj in E. now subst.
  - intros H. now exists L.
Qed.

End ExportedValue.

(* ------------------------------------------------------------------ *)
(** ** Properties of the configuration *)

Section Properties.
Import JS Config.

(** C1.  For every label [L] of the colour table, the first pattern of the
    safelist matches [text-L] and the second matches [bg-L/15]. *)
Theorem safelist_covers_every_label :
  exists (cfg colors : value) (R1 R2 : RegExp.t),
    exports cfg colors R1 R2 /\
    keys colors = map fst extraColors /\
    forall L : string,
      In L (keys colors) ->
      RegExp.test R1 ("text-" ++ L) = true /\
      RegExp.test R2 ("bg-" ++ L ++ "/15") = true.
Proof.
  destruct export_parts as (cfg & R1 & R2 & E & M1 & M2 & _).
  exists cfg, (Obj (resolved declared)), R1, R2. split; [exact E|].
  split; [reflexivity|].
  intros L HL. rewrite keys_resolved in HL. split.
  - apply (test_anchored R1 _ _ _ M1). exists L. split; [exact HL|].
    now rewrite append_nil_right.
  - apply (test_anchored R2 _ _ _ M2). exists L. split; [exact HL | reflexivity].
Qed.

(** C2.  Both patterns are the key list of the colour table interpolated
    into a template: the alternation of each pattern offers exactly the keys
    of the table, so a label is an alternative of a pattern if and only if
    it is a key. *)
Theorem safelist_alternation_is_key_set :
  exists (cfg colors : value) (R1 R2 : RegExp.t),
    exports cfg colors R1 R2 /\
    RegExp.OriginalSource R1 = "^text-(" ++ join "|" (keys colors) ++ ")$" /\
    RegExp.OriginalSource R2 = "^bg-(" ++ join "|" (keys colors) ++ ")/15$" /\
    RegExp.group_alternatives R1 = map RegExp.characters (keys colors) /\
    RegExp.group_alternatives R2 = map RegExp.characters (keys colors) /\
    forall L : string,
      (In (RegExp.characters L) (RegExp.group_alternatives R1) <-> In L (keys colors)) /\
      (In (RegExp.characters L) (RegExp.group_alternatives R2) <-> In L (keys colors)).
Proof.
  destruct export_parts as (cfg & R1 & R2 & E & M1 & M2 & S1 & S2).
  assert (A1 : RegExp.group_alternatives R1
               = map RegExp.characters (map fst extraColors)).
  { unfold RegExp.group_alternatives. rewrite M1. reflexivity. }
  assert (A2 : RegExp.group_alternatives R2
               = map RegExp.characters (map fst extraColors)).
  { unfold RegExp.group_alternatives. rewrite M2. reflexivity. }
  exists cfg, (Obj (resolved declared)), R1, R2. rewrite keys_resolved.
  split; [exact E|]. split; [exact S1|]. split; [exact S2|].
  split; [exact A1|]. split; [exact A2|].
  intros L. rewrite A1, A2. split; apply In_characters.
Qed.

(** C3, as amended.  Exactly eight labels take their value from a
    constant: [new], [writeonly], [readonly], [protected] and [private] from
    [TAG_PURPLE], and [abstract], [optional] and [permissions] from
    [TAG_CYAN].  The other nine of the seventeen labels are bound to a string
    literal. *)
Theorem aliased_labels :
  (forall (L : string) (x : Constant),
      In (L, Reference x) extraColors <->
      (x = TAG_PURPLE /\
       In L ["new"; "writeonly"; "readonly"; "protected"; "private"]) \/
      (x = TAG_CYAN /\ In L ["abstract"; "optional"; "permissions"])) /\
  (forall L : string,
      (exists s, In (L, Literal s) extraColors) <->
      In L ["Function"; "Variable"; "Class"; "Enum"; "Interface"; "TypeAlias";
            "Namespace"; "deprecated"; "other"]) /\
  (forall (L : string) (e : Initializer),
      In (L, e) extraColors ->
      (e = Reference TAG_PURPLE <->
       In L ["new"; "writeonly"; "readonly"; "protected"; "private"]) /\
      (e = Reference TAG_CYAN <-> In L ["abstract"; "optional"; "permissions"]) /\
      ((exists s, e = Literal s) <->
       In L ["Function"; "Variable"; "Class"; "Enum"; "Interface"; "TypeAlias";
             "Namespace"; "deprecated"; "other"])) /\
  map fst (filter (fun kv => written_as TAG_PURPLE (snd kv)) extraColors)
  = ["new"; "writeonly"; "readonly"; "protected"; "private"] /\
  map fst (filter (fun kv => written_as TAG_CYAN (snd kv)) extraColors)
  = ["abstract"; "optional"; "permissions"] /\
  List.length
    (filter (fun kv => written_as TAG_PURPLE (snd kv)
                       || written_as TAG_CYAN (snd kv)) extraColors) = 8 /\
  List.length extraColors = 17.
Proof.
  split; [|split; [|split; [|repeat split; reflexivity]]].
  - intros L x. split.
    + intros H. cbn in H.
      repeat destruct H as [H|H]; try (exfalso; exact H); try discriminate H;
        injection H as <- <-;
        first [ left; split; [reflexivity | solve [cbn; tauto]]
              | right; split; [reflexivity | solve [cbn; tauto]] ].
    + intros [[-> H] | [-> H]]; cbn in H;
        repeat destruct H as [<- | H]; try (exfalso; exact H);
          solve [cbn; repeat (first [left; reflexivity | right])].
  - intros L. split.
    + intros [s H]. cbn in H.
      repeat destruct H as [H|H]; try (exfalso; exact H); try discriminate H;
        injection H as <- <-; solve [cbn; tauto].
    + intros H. cbn in H.
      repeat destruct H as [<- | H]; try (exfalso; exact H);
        eexists; solve [cbn; repeat (first [left; reflexivity | right])].
  - intros L e H. cbn in H.
    repeat destruct H as [H|H]; try (exfalso; exact H); injection H as <- <-;
      repeat split; intros X;
        first
          [ discriminate X
          | reflexivity
          | eexists; reflexivity
          | solve [cbn; tauto]
          | solve [destruct X as [s X]; discriminate X]
          | solve [cbn in X; repeat destruct X as [X|X];
                   try discriminate X; destruct X] ].
Qed.

(** C3, as stated, fails at [writeonly]: its value is the constant
    [TAG_PURPLE], and it is neither [new] nor [abstract]. *)
Lemma writeonly_is_aliased :
  In ("writeonly", Reference TAG_PURPLE) extraColors /\
  "writeonly" <> "new" /\ "writeonly" <> "abstract".
Proof.
  split; [do 10 right; left; reflexivity|].
  split; discriminate.
Qed.

(** C4.  The exported value as a function of the constants: every entry
    written as a constant has that constant's value.  When one constant is
    given another value [v], the entries written as that constant, [new],
    [writeonly], [readonly], [protected] and [private] for [TAG_PURPLE] and
    [abstract], [optional] and [permissions] for [TAG_CYAN], become [v], and
    nothing else of the export changes: the table keeps its keys and every
    other entry, and the export is the same object around the table, with
    the same [content], the same [safelist] and the same [darkMode]. *)
Theorem shared_constant_replacement (env : Constant -> string) (x : Constant)
  (v : string) :
  exists (cfg cfg' colors colors' content safelist : value)
         (table table' : list (string * value)),
    default_export_with env = Ok cfg /\
    default_export_with (replace env x v) = Ok cfg' /\
    theme_colors cfg = Some colors /\
    theme_colors cfg' = Some colors' /\
    (forall L y, In (L, Reference y) extraColors ->
                 get colors L = Some (Str (env y))) /\
    (forall L, In (L, Reference x) extraColors ->
               get colors' L = Some (Str v)) /\
    (forall L e, In (L, e) extraColors -> e <> Reference x ->
                 get colors' L = get colors L) /\
    keys colors' = keys colors /\
    (forall key, key <> "theme" -> get cfg' key = get cfg key) /\
    keys cfg' = keys cfg /\
    cfg = Obj [("content", content); ("safelist", safelist);
               ("theme", Obj [("extend", Obj [("colors", colors)])]);
               ("darkMode", Str "class")] /\
    cfg' = Obj [("content", content); ("safelist", safelist);
                ("theme", Obj [("extend", Obj [("colors", colors')])]);
                ("darkMode", Str "class")] /\
    colors = Obj table /\
    colors' = Obj table' /\
    map fst table = map fst extraColors /\
    map fst table' = map fst extraColors /\
    (forall L,
        In L match x with
             | TAG_PURPLE =>
                 ["new"; "writeonly"; "readonly"; "protected"; "private"]
             | TAG_CYAN => ["abstract"; "optional"; "permissions"]
             end ->
        get colors L = Some (Str (env x)) /\ get colors' L = Some (Str v)) /\
    (forall L,
        ~ In L match x with
               | TAG_PURPLE =>
                   ["new"; "writeonly"; "readonly"; "protected"; "private"]
               | TAG_CYAN => ["abstract"; "optional"; "permissions"]
               end ->
        get colors' L = get colors L).
Proof.
  destruct default_export_with_shape as (R1 & R2 & _ & _ & _ & _ & E).
  eexists _, _, (Obj (resolved env)), (Obj (resolved (replace env x v))),
    _, _, (resolved env), (resolved (replace env x v)).
  split; [apply E|]. split; [apply E|].
  split; [reflexivity|]. split; [reflexivity|].
  split.
  { intros L y H. apply (get_resolved env L (Reference y) H). }
  split.
  { intros L H. rewrite (get_resolved _ L (Reference x) H).
    cbn [evaluate]. unfold replace. now destruct x. }
  split.
  { intros L e H Hne. rewrite (get_resolved _ L e H), (get_resolved _ L e H).
    destruct e as [s|y]; [reflexivity|].
    cbn [evaluate]. unfold replace.
    destruct x, y; cbn [Constant_eqb]; congruence. }
  split; [reflexivity|].
  split.
  { intros key Hkey. cbn [get lookup].
    destruct (String.eqb "content" key); [reflexivity|].
    destruct (String.eqb "safelist" key); [reflexivity|].
    destruct (String.eqb_spec "theme" key) as [Heq|_]; [congruence|].
    reflexivity. }
  split; [reflexivity|].
  split; [reflexivity|]. split; [reflexivity|].
  split; [reflexivity|]. split; [reflexivity|].
  split; [reflexivity|]. split; [reflexivity|].
  split.
  { intros L H.
    destruct x; cbn in H;
      repeat destruct H as [<- | H]; try (exfalso; exact H);
        split; reflexivity. }
  intros L H. cbn [get]. unfold resolved, replace.
  destruct x;
    cbn [extraColors map lookup fst snd evaluate Constant_eqb];
    repeat match goal with
           | |- context [String.eqb ?k L] =>
               destruct (String.eqb_spec k L) as [<- | _];
               [first [reflexivity | exfalso; apply H; cbn; tauto] |]
           end;
    reflexivity.
Qed.

(** C5.  The first pattern matches [s] if and only if [s] is [text-L] for a
    label [L] of the colour table.  It matches [text-Function] and does not
    match [text-Function2]. *)
Theorem text_pattern_matches_exact_labels :
  exists (cfg colors : value) (R1 R2 : RegExp.t),
    exports cfg colors R1 R2 /\
    keys colors = map fst extraColors /\
    RegExp.OriginalSource R1 = "^text-(" ++ join "|" (keys colors) ++ ")$" /\
    (forall s : string,
        RegExp.test R1 s = true <->
        exists L, In L (keys colors) /\ s = "text-" ++ L) /\
    RegExp.test R1 "text-Function" = true /\
    RegExp.test R1 "text-Function2" = false.
Proof.
  destruct export_parts as (cfg & R1 & R2 & E & M1 & _ & S1 & _).
  exists cfg, (Obj (resolved declared)), R1, R2. rewrite keys_resolved.
  split; [exact E|]. split; [reflexivity|]. split; [exact S1|].
  split; [|split].
  - intros s. rewrite (test_anchored R1 _ _ _ M1).
    split; intros (L & HL & ->); exists L; split; try exact HL;
      now rewrite append_nil_right.
  - unfold RegExp.test. rewrite M1. reflexivity.
  - unfold RegExp.test. rewrite M1. reflexivity.
Qed.

(** C6.  Every value of the exported colour table, the constants resolved,
    is [#] followed by exactly six hexadecimal digits. *)
Theorem color_values_are_hex :
  exists (cfg : value) (R1 R2 : RegExp.t) (table : list (string * value)),
    exports cfg (Obj table) R1 R2 /\
    List.length table = 17 /\
    forall (L : string) (v : value),
      In (L, v) table -> exists s, v = Str s /\ hex_color6 s = true.
Proof.
  destruct export_parts as (cfg & R1 & R2 & E & _).
  exists cfg, R1, R2, (resolved declared).
  split; [exact E|]. split; [reflexivity|].
  intros L v H.
  assert (F : forallb (fun kv => match snd kv with
                                 | Str s => hex_color6 s
                                 | _ => false
                                 end) (resolved declared) = true)
    by reflexivity.
  rewrite forallb_forall in F. specialize (F (L, v) H). cbn [snd] in F.
  destruct v as [s| | |]; try discriminate F. now exists s.
Qed.

(** C7.  The seventeen labels of the colour table are pairwise distinct:
    the keys of the exported table are the labels in source order and each
    label reads back the value of its own definition. *)
Theorem labels_are_distinct :
  NoDup (map fst extraColors) /\
  List.length extraColors = 17 /\
  exists (cfg colors : value) (R1 R2 : RegExp.t),
    exports cfg colors R1 R2 /\
    keys colors = map fst extraColors /\
    forall (L : string) (e : Initializer),
      In (L, e) extraColors -> get colors L = Some (Str (evaluate declared e)).
Proof.
  split; [apply NoDup_labels|]. split; [reflexivity|].
  destruct export_parts as (cfg & R1 & R2 & E & _).
  exists cfg, (Obj (resolved declared)), R1, R2.
  split; [exact E|]. split; [reflexivity|].
  intros L e H. now apply get_resolved.
Qed.

(** C8.  The exported value has exactly the four properties [content],
    [safelist], [theme] and [darkMode]: two globs, two pattern
    specifications, the colour extension, and the string [class]. *)
Theorem default_export_has_four_fields :
  exists (content safelist theme : value) (R1 R2 : RegExp.t)
         (table : list (string * value)),
    default_export
    = Ok (Obj [("content", content); ("safelist", safelist);
               ("theme", theme); ("darkMode", Str "class")]) /\
    keys (Obj [("content", content); ("safelist", safelist);
               ("theme", theme); ("darkMode", Str "class")])
    = ["content"; "safelist"; "theme"; "darkMode"] /\
    content = Arr [Str "./src/html/**/*.rs"; Str "./src/html/templates/*.hbs"] /\
    safelist = Arr [Obj [("pattern", Rx R1)]; Obj [("pattern", Rx R2)]] /\
    theme = Obj [("extend", Obj [("colors", Obj table)])] /\
    map fst table = map fst extraColors.
Proof.
  destruct default_export_with_shape as (R1 & R2 & _ & _ & _ & _ & E).
  eexists _, _, _, R1, R2, (resolved declared).
  split; [apply E|]. repeat split; reflexivity.
Qed.

(** Evaluation in the heap model.  From any heap [h] the module returns
    and leaves [h] extended by fresh objects; evaluated a second time, in
    the heap the first evaluation left, it does so again.  The two results
    read back as the same tree, which is the default export, and the second
    evaluation leaves the first result as it was.  The model has own
    properties only and no operation that reads or writes anything but the
    heap, so this says nothing of prototypes, of the builtins the module
    calls, or of what loading the module does. *)
Theorem module_eval_extends_heap (h : heap) :
  exists (root1 root2 : val) (new1 new2 : list object) (cfg : value),
    module_eval h = Ok (root1, (h ++ new1)%list) /\
    module_eval (h ++ new1)%list = Ok (root2, ((h ++ new1) ++ new2)%list) /\
    read (h ++ new1)%list root1 = Some cfg /\
    read ((h ++ new1) ++ new2)%list root2 = Some cfg /\
    read ((h ++ new1) ++ new2)%list root1 = Some cfg /\
    default_export = Ok cfg.
Proof.
  destruct (module_body_steps declared h)
    as (k1 & new1 & cfg & Hs1 & Hn1 & Hr1 & He).
  destruct (module_body_steps declared (h ++ new1)%list)
    as (k2 & new2 & cfg' & Hs2 & Hn2 & Hr2 & He').
  assert (cfg' = cfg) by congruence. subst cfg'.
  unfold steps in Hs1, Hs2. rewrite app_nil_r in Hs1, Hs2.
  exists (VRef (List.length h + k1)), (VRef (List.length (h ++ new1) + k2)),
    new1, new2, cfg.
  unfold module_eval, read.
  split; [exact Hs1|]. split; [exact Hs2|].
  assert (R1 : reify (List.length (h ++ new1)) (h ++ new1)%list
                 (VRef (List.length h + k1)) = Some cfg).
  { rewrite length_app, Nat.add_comm. exact Hr1. }
  split; [exact R1|]. split; [|split; [|exact He]].
  - rewrite length_app, Nat.add_comm. exact Hr2.
  - apply (reify_mono _ _ _ _ R1). rewrite !length_app. lia.
Qed.

(** C10.  The second pattern matches [s] if and only if [s] is [bg-L/15]
    for a label [L] of the colour table.  The suffix is required and exact:
    [bg-Function], [bg-Function/25] and [bg-Function/150] are not matched.
    The escaped slash of the template is the character [/] in the pattern
    text, and no label contains a syntax character. *)
Theorem bg_pattern_matches_exact_labels :
  exists (cfg colors : value) (R1 R2 : RegExp.t),
    exports cfg colors R1 R2 /\
    keys colors = map fst extraColors /\
    cook ")\/15$" = Ok ")/15$" /\
    RegExp.OriginalSource R2 = "^bg-(" ++ join "|" (keys colors) ++ ")/15$" /\
    Forall (fun L => RegExp.plain L = true) (keys colors) /\
    (forall s : string,
        RegExp.test R2 s = true <->
        exists L, In L (keys colors) /\ s = "bg-" ++ L ++ "/15") /\
    RegExp.test R2 "bg-Function/15" = true /\
    RegExp.test R2 "bg-Function" = false /\
    RegExp.test R2 "bg-Function/25" = false /\
    RegExp.test R2 "bg-Function/150" = false.
Proof.
  destruct export_parts as (cfg & R1 & R2 & E & _ & M2 & _ & S2).
  exists cfg, (Obj (resolved declared)), R1, R2. rewrite keys_resolved.
  split; [exact E|]. split; [reflexivity|].
  split; [reflexivity|]. split; [exact S2|].
  split; [repeat constructor|].
  split; [exact (test_anchored R2 _ _ _ M2)|].
  unfold RegExp.test. rewrite M2. repeat split; reflexivity.
Qed.

(** The safelist keeps step with any colour table.  Whatever the labels
    are, as long as there is one and none contains a syntax character, the
    two templates of the module yield patterns that compile, and the
    patterns match exactly the strings [text-L] and [bg-L/15] for the
    labels [L]. *)
Theorem safelist_templates_cover_any_labels (labels : list string) :
  labels <> [] ->
  Forall (fun L => RegExp.plain L = true) labels ->
  exists (source1 source2 : string) (R1 R2 : RegExp.t),
    TemplateLiteral (text_template (join "|" labels)) = Ok source1 /\
    TemplateLiteral (bg_template (join "|" labels)) = Ok source2 /\
    RegExp.RegExpCreate source1 = Some R1 /\
    RegExp.RegExpCreate source2 = Some R2 /\
    (forall s : string,
        RegExp.test R1 s = true <-> exists L, In L labels /\ s = "text-" ++ L) /\
    (forall s : string,
        RegExp.test R2 s = true <->
        exists L, In L labels /\ s = "bg-" ++ L ++ "/15").
Proof.
  intros Hne Hall.
  pose proof (ParsePattern_anchored "text-" "" labels eq_refl eq_refl Hne Hall)
    as P1.
  pose proof (ParsePattern_anchored "bg-" "/15" labels eq_refl eq_refl Hne Hall)
    as P2.
  eexists _, _, (RegExp.Make _ _), (RegExp.Make _ _).
  split; [reflexivity|]. split; [reflexivity|].
  split; [unfold RegExp.RegExpCreate; cbn [append] in *; rewrite P1; reflexivity|].
  split; [unfold RegExp.RegExpCreate; cbn [append] in *; rewrite P2; reflexivity|].
  split.
  - intros s.
    match goal with
    | |- RegExp.test ?R s = true <-> _ =>
        rewrite (test_anchored R "text-" "" labels eq_refl)
    end.
    split; intros (L & HL & ->); exists L; split; try exact HL;
      now rewrite append_nil_right.
  - intros s.
    match goal with
    | |- RegExp.test ?R s = true <-> _ =>
        apply (test_anchored R "bg-" "/15" labels eq_refl)
    end.
Qed.

Lemma safelist_templates_cover_two_labels :
  (["Function"; "new"] <> [] /\
   Forall (fun L => RegExp.plain L = true) ["Function"; "new"]) /\
  exists (source1 source2 : string) (R1 R2 : RegExp.t),
    TemplateLiteral (text_template (join "|" ["Function"; "new"])) = Ok source1 /\
    TemplateLiteral (bg_template (join "|" ["Function"; "new"])) = Ok source2 /\
    RegExp.RegExpCreate source1 = Some R1 /\
    RegExp.RegExpCreate source2 = Some R2 /\
    (forall s : string,
        RegExp.test R1 s = true <->
        exists L, In L ["Function"; "new"] /\ s = "text-" ++ L) /\
    (forall s : string,
        RegExp.test R2 s = true <->
        exists L, In L ["Function"; "new"] /\ s = "bg-" ++ L ++ "/15").
Proof.
  assert (Hne : ["Function"; "new"] <> []) by discriminate.
  assert (Hall : Forall (fun L => RegExp.plain L = true) ["Function"; "new"])
    by (repeat constructor).
  split; [split; assumption|].
  exact (safelist_templates_cover_any_labels ["Function"; "new"] Hne Hall).
Defined.

End Properties.

(* ------------------------------------------------------------------ *)
(** ** Class names and colours *)

Section ClassNames.
Import JS Config.

Lemma length_append (a b : string) :
  String.length (a ++ b) = String.length a + String.length b.
Proof. induction a as [|c a IH]; cbn; [reflexivity | now rewrite IH]. Qed.

Lemma append_cancel_r (a b c : string) : a ++ c = b ++ c -> a = b.
Proof.
  revert b. induction a as [|x a IH]; intros [|y b] H; cbn in H.
  - reflexivity.
  - apply (f_equal String.length) in H. cbn in H. rewrite length_append in H. lia.
  - apply (f_equal String.length) in H. cbn in H. rewrite length_append in H. lia.
  - injection H as -> H. f_equal. now apply IH.
Qed.

Lemma append_cancel_l (p a b : string) : p ++ a = p ++ b -> a = b.
Proof.
  induction p as [|x p IH]; cbn; intros H; [exact H|].
  injection H as H. now apply IH.
Qed.

(** Every initializer of the table evaluates to a colour of six digits. *)
Lemma initializers_are_hex (L : string) (e : Initializer) :
  In (L, e) extraColors -> hex_color6 (evaluate declared e) = true.
Proof.
  intros H.
  assert (F : forallb (fun kv => hex_color6 (evaluate declared (snd kv)))
                extraColors = true) by reflexivity.
  rewrite forallb_forall in F. exact (F (L, e) H).
Qed.

Lemma label_has_color (L : string) :
  In L (map fst extraColors) ->
  exists c, get (Obj (resolved declared)) L = Some (Str c) /\ hex_color6 c = true.
Proof.
  rewrite in_map_iff. intros ([L' e] & E & H). cbn in E. subst L'.
  exists (evaluate declared e). split.
  - now apply get_resolved.
  - now apply (initializers_are_hex L).
Qed.

(** X3.  The safelist keeps no class without a colour: a string matched by
    the first pattern is [text-L], and one matched by the second is
    [bg-L/15], for a label [L] that [theme.extend.colors] binds to a colour
    of six hexadecimal digits. *)
Theorem kept_classes_have_theme_colors :
  exists (cfg colors : value) (R1 R2 : RegExp.t),
    exports cfg colors R1 R2 /\
    (forall s : string,
        RegExp.test R1 s = true ->
        exists L c, s = "text-" ++ L /\
                    get colors L = Some (Str c) /\ hex_color6 c = true) /\
    (forall s : string,
        RegExp.test R2 s = true ->
        exists L c, s = "bg-" ++ L ++ "/15" /\
                    get colors L = Some (Str c) /\ hex_color6 c = true).
Proof.
  destruct export_parts as (cfg & R1 & R2 & E & M1 & M2 & _).
  exists cfg, (Obj (resolved declared)), R1, R2. split; [exact E|].
  split; intros s H.
  - apply (test_anchored R1 _ _ _ M1) in H. destruct H as (L & HL & ->).
    destruct (label_has_color L HL) as (c & Hc & Hhex).
    exists L, c. rewrite append_nil_right. auto.
  - apply (test_anchored R2 _ _ _ M2) in H. destruct H as (L & HL & ->).
    destruct (label_has_color L HL) as (c & Hc & Hhex).
    exists L, c. auto.
Qed.

(** X4.  No string is matched by both patterns, and a matched string names
    one label only: if the first pattern matches [s] there is exactly one
    label [L] of the table with [s = text-L], and likewise for the second
    pattern and [bg-L/15]. *)
Theorem kept_class_names_one_label :
  exists (cfg colors : value) (R1 R2 : RegExp.t),
    exports cfg colors R1 R2 /\
    (forall s : string, RegExp.test R1 s = true -> RegExp.test R2 s = false) /\
    (forall s : string,
        RegExp.test R1 s = true ->
        exists! L, In L (keys colors) /\ s = "text-" ++ L) /\
    (forall s : string,
        RegExp.test R2 s = true ->
        exists! L, In L (keys colors) /\ s = "bg-" ++ L ++ "/15").
Proof.
  destruct export_parts as (cfg & R1 & R2 & E & M1 & M2 & _).
  exists cfg, (Obj (resolved declared)), R1, R2. rewrite keys_resolved.
  split; [exact E|]. split; [|split]; intros s H.
  - apply (test_anchored R1 _ _ _ M1) in H. destruct H as (L & _ & ->).
    destruct (RegExp.test R2 _) eqn:H2; [|reflexivity].
    apply (test_anchored R2 _ _ _ M2) in H2. destruct H2 as (L' & _ & H2).
    discriminate H2.
  - apply (test_anchored R1 _ _ _ M1) in H. destruct H as (L & HL & ->).
    rewrite append_nil_right.
    exists L. split; [auto|]. intros L' [_ H']. now apply append_cancel_l in H'.
  - apply (test_anchored R2 _ _ _ M2) in H. destruct H as (L & HL & ->).
    exists L. split; [auto|]. intros L' [_ H'].
    apply append_cancel_l in H'. now apply append_cancel_r in H'.
Qed.

End ClassNames.

(* ------------------------------------------------------------------ *)
(** ** Labels are interpolated as they are *)

Section Interpolation.
Import JS Config.

Lemma join_cons (sep x : string) (l : list string) :
  l <> [] -> join sep (x :: l) = x ++ sep ++ join sep l.
Proof. destruct l; [congruence | reflexivity]. Qed.

Lemma join_cons_append (sep x y : string) (l : list string) :
  join sep ((x ++ y) :: l) = x ++ join sep (y :: l).
Proof.
  destruct l as [|z l]; [reflexivity|].
  rewrite !join_cons by discriminate. apply append_assoc.
Qed.

(** A label cut in two: what is before the cut ends the labels on the left,
    what is after it starts the labels on the right. *)
Lemma join_cut (sep a b : string) (l m : list string) :
  join sep (l ++ (a ++ b) :: m) = join sep (l ++ [a]) ++ join sep (b :: m).
Proof.
  induction l as [|x l IH].
  - cbn [app]. apply join_cons_append.
  - cbn [app]. rewrite !join_cons by (now destruct l).
    rewrite IH. now rewrite !append_assoc.
Qed.

Lemma join_bar (a b : string) (l m : list string) :
  join "|" (l ++ (a ++ "|" ++ b) :: m) = join "|" (l ++ a :: b :: m).
Proof.
  induction l as [|x l IH].
  - cbn [app]. rewrite (join_cons "|" a) by discriminate.
    rewrite join_cons_append. f_equal.
    change ("|" ++ b) with ("|" ++ "" ++ b).
    destruct m as [|z m]; [reflexivity|].
    now rewrite !join_cons by discriminate.
  - cbn [app]. rewrite !join_cons by (now destruct l). now rewrite IH.
Qed.

Lemma plain_append (a b : string) :
  RegExp.plain (a ++ b) = RegExp.plain a && RegExp.plain b.
Proof.
  induction a as [|c a IH]; [reflexivity|].
  unfold RegExp.plain in *. cbn [append list_ascii_of_string existsb].
  rewrite !negb_orb, IH. now rewrite andb_assoc.
Qed.

(** The text of the two templates. *)
Lemma text_template_text (labels : string) :
  TemplateLiteral (text_template labels) = Ok ("^text-(" ++ labels ++ ")$").
Proof. reflexivity. Qed.

Lemma bg_template_text (labels : string) :
  TemplateLiteral (bg_template labels) = Ok ("^bg-(" ++ labels ++ ")/15$").
Proof. reflexivity. Qed.

Lemma templates_compile (labels : list string) :
  labels <> [] ->
  Forall (fun L => RegExp.plain L = true) labels ->
  RegExp.RegExpCreate ("^text-(" ++ join "|" labels ++ ")$")
  = Some (RegExp.Make ("^text-(" ++ join "|" labels ++ ")$")
            (RegExp.anchored "text-" labels "")) /\
  RegExp.RegExpCreate ("^bg-(" ++ join "|" labels ++ ")/15$")
  = Some (RegExp.Make ("^bg-(" ++ join "|" labels ++ ")/15$")
            (RegExp.anchored "bg-" labels "/15")).
Proof.
  intros Hne Hall.
  pose proof (ParsePattern_anchored "text-" "" labels eq_refl eq_refl Hne Hall)
    as P1.
  pose proof (ParsePattern_anchored "bg-" "/15" labels eq_refl eq_refl Hne Hall)
    as P2.
  unfold RegExp.RegExpCreate. cbn [append] in *. now rewrite P1, P2.
Qed.

Lemma test_text (source : string) (labels : list string) (s : string) :
  RegExp.test (RegExp.Make source (RegExp.anchored "text-" labels "")) s = true
  <-> exists L, In L labels /\ s = "text-" ++ L.
Proof.
  rewrite (test_anchored (RegExp.Make source _) "text-" "" labels eq_refl).
  split; intros (L & HL & ->); exists L; split; try exact HL;
    now rewrite append_nil_right.
Qed.

Lemma test_bg (source : string) (labels : list string) (s : string) :
  RegExp.test (RegExp.Make source (RegExp.anchored "bg-" labels "/15")) s = true
  <-> exists L, In L labels /\ s = "bg-" ++ L ++ "/15".
Proof.
  apply (test_anchored (RegExp.Make source _) "bg-" "/15" labels eq_refl).
Qed.

(** X5.  A [|] inside a label is not escaped: the label is read as two
    labels.  With [w1|w2] in the table the patterns match [text-w1] and
    [text-w2] (and the [bg-] forms) besides the other labels, and do not
    match the class names of the label itself. *)
Theorem bar_in_label_splits_it (good more : list string) (w1 w2 : string) :
  Forall (fun L => RegExp.plain L = true) good ->
  Forall (fun L => RegExp.plain L = true) more ->
  RegExp.plain w1 = true -> RegExp.plain w2 = true ->
  exists (source1 source2 : string) (R1 R2 : RegExp.t),
    TemplateLiteral
      (text_template (join "|" (good ++ (w1 ++ "|" ++ w2) :: more))) = Ok source1 /\
    TemplateLiteral
      (bg_template (join "|" (good ++ (w1 ++ "|" ++ w2) :: more))) = Ok source2 /\
    RegExp.RegExpCreate source1 = Some R1 /\
    RegExp.RegExpCreate source2 = Some R2 /\
    (forall s : string,
        RegExp.test R1 s = true <->
        exists L, In L (good ++ w1 :: w2 :: more) /\ s = "text-" ++ L) /\
    (forall s : string,
        RegExp.test R2 s = true <->
        exists L, In L (good ++ w1 :: w2 :: more) /\ s = "bg-" ++ L ++ "/15") /\
    RegExp.test R1 ("text-" ++ (w1 ++ "|" ++ w2)) = false /\
    RegExp.test R2 ("bg-" ++ (w1 ++ "|" ++ w2) ++ "/15") = false.
Proof.
  intros Hgood Hmore H1 H2.
  set (labels := (good ++ w1 :: w2 :: more)%list).
  assert (Hne : labels <> []) by (subst labels; now destruct good).
  assert (Hall : Forall (fun L => RegExp.plain L = true) labels).
  { subst labels. apply Forall_app. split; [assumption|].
    repeat constructor; assumption. }
  assert (J : join "|" (good ++ (w1 ++ "|" ++ w2) :: more) = join "|" labels).
  { subst labels. apply join_bar. }
  destruct (templates_compile labels Hne Hall) as [C1 C2].
  assert (Hbar : ~ In (w1 ++ "|" ++ w2) labels).
  { intros Hin. rewrite Forall_forall in Hall. specialize (Hall _ Hin).
    rewrite plain_append in Hall. cbn in Hall.
    now rewrite andb_false_r in Hall. }
  eexists _, _, _, _.
  rewrite text_template_text, bg_template_text, J.
  split; [reflexivity|]. split; [reflexivity|].
  split; [exact C1|]. split; [exact C2|].
  pose proof (test_text ("^text-(" ++ join "|" labels ++ ")$") labels) as T1.
  pose proof (test_bg ("^bg-(" ++ join "|" labels ++ ")/15$") labels) as T2.
  split; [exact T1|]. split; [exact T2|]. split.
  - destruct (RegExp.test _ _) eqn:E; [|reflexivity].
    apply T1 in E. destruct E as (L & HL & E).
    apply append_cancel_l in E. now subst L.
  - destruct (RegExp.test _ _) eqn:E; [|reflexivity].
    apply T2 in E. destruct E as (L & HL & E).
    apply append_cancel_l, append_cancel_r in E. now subst L.
Qed.

Lemma bar_in_label_splits_a_b :
  (Forall (fun L => RegExp.plain L = true) ["Function"] /\
   Forall (fun L => RegExp.plain L = true) [] /\
   RegExp.plain "a" = true /\ RegExp.plain "b" = true) /\
  exists (source1 source2 : string) (R1 R2 : RegExp.t),
    TemplateLiteral
      (text_template (join "|" (["Function"] ++ ("a" ++ "|" ++ "b") :: []))) = Ok source1 /\
    TemplateLiteral
      (bg_template (join "|" (["Function"] ++ ("a" ++ "|" ++ "b") :: []))) = Ok source2 /\
    RegExp.RegExpCreate source1 = Some R1 /\
    RegExp.RegExpCreate source2 = Some R2 /\
    (forall s : string,
        RegExp.test R1 s = true <->
        exists L, In L (["Function"] ++ "a" :: "b" :: []) /\ s = "text-" ++ L) /\
    (forall s : string,
        RegExp.test R2 s = true <->
        exists L, In L (["Function"] ++ "a" :: "b" :: []) /\ s = "bg-" ++ L ++ "/15") /\
    RegExp.test R1 ("text-" ++ ("a" ++ "|" ++ "b")) = false /\
    RegExp.test R2 ("bg-" ++ ("a" ++ "|" ++ "b") ++ "/15") = false.
Proof.
  assert (Hg : Forall (fun L => RegExp.plain L = true) ["Function"])
    by (repeat constructor).
  assert (Hm : Forall (fun L => RegExp.plain L = true) []) by constructor.
  split; [repeat split; assumption || reflexivity|].
  exact (bar_in_label_splits_it ["Function"] [] "a" "b" Hg Hm eq_refl eq_refl).
Defined.

(** A [)] met outside every group ends the parse. *)
Lemma parse_from_join_unmatched (labels : list string) :
  Forall (fun L => RegExp.plain L = true) labels ->
  forall (f : RegExp.frame) (rest : string),
    RegExp.parse_from (join "|" labels ++ String ")" rest) [] f = None.
Proof.
  induction labels as [|L labels IH]; intros Hall f rest; [reflexivity|].
  inversion Hall as [|? ? HL Hall']; subst.
  destruct labels as [|L' labels].
  - cbn [join]. now rewrite (parse_from_characters L HL).
  - rewrite join_cons by discriminate.
    rewrite append_assoc, (parse_from_characters L HL).
    cbn [append RegExp.parse_from Ascii.eqb Bool.eqb andb].
    now apply IH.
Qed.

(** Inside a group that is never closed the parse fails at the end of the
    pattern. *)
Lemma parse_from_join_unterminated (labels : list string) (post : string) :
  Forall (fun L => RegExp.plain L = true) labels ->
  RegExp.plain post = true ->
  forall f f1 g : RegExp.frame,
    RegExp.parse_from (join "|" labels ++ String ")" (post ++ "$")) [f1; g] f
    = None.
Proof.
  intros Hall Hpost.
  assert (Hend : forall f f1 g,
             RegExp.parse_from (String ")" (post ++ "$")) [f1; g] f = None).
  { intros f f1 g. cbn [RegExp.parse_from Ascii.eqb Bool.eqb andb].
    now rewrite (parse_from_characters post Hpost). }
  induction labels as [|L labels IH]; intros f f1 g; [apply Hend|].
  inversion Hall as [|? ? HL Hall']; subst.
  destruct labels as [|L' labels].
  - cbn [join]. rewrite (parse_from_characters L HL). apply Hend.
  - rewrite join_cons by discriminate.
    rewrite append_assoc, (parse_from_characters L HL).
    cbn [append RegExp.parse_from Ascii.eqb Bool.eqb andb].
    now apply IH.
Qed.

(** A [(] after the labels opens a group inside the one being read. *)
Lemma parse_from_join_then_open (labels : list string) :
  Forall (fun L => RegExp.plain L = true) labels ->
  forall (f : RegExp.frame) (outer : list RegExp.frame),
  exists F : RegExp.frame,
    forall rest : string,
      RegExp.parse_from (join "|" labels ++ String "(" rest) outer f
      = RegExp.parse_from rest (F :: outer) RegExp.empty_frame.
Proof.
  induction labels as [|L labels IH]; intros Hall f outer.
  - exists f. reflexivity.
  - inversion Hall as [|? ? HL Hall']; subst.
    destruct labels as [|L' labels].
    + eexists. intros rest. cbn [join].
      rewrite (parse_from_characters L HL). reflexivity.
    + destruct (IH Hall'
                  (RegExp.next_alternative
                     (RegExp.Frame (RegExp.closed f)
                        (rev (RegExp.characters L) ++ RegExp.current f)%list))
                  outer) as [F HF].
      exists F. intros rest. rewrite join_cons by discriminate.
      rewrite append_assoc, (parse_from_characters L HL).
      cbn [append RegExp.parse_from Ascii.eqb Bool.eqb andb].
      apply HF.
Qed.

Lemma ParsePattern_unmatched (pre rest : string) (labels1 labels2 : list string) :
  RegExp.plain pre = true ->
  labels1 <> [] ->
  Forall (fun L => RegExp.plain L = true) labels1 ->
  Forall (fun L => RegExp.plain L = true) labels2 ->
  RegExp.ParsePattern
    ("^" ++ pre ++ "(" ++ join "|" labels1 ++ ")" ++ join "|" labels2 ++ ")" ++ rest)
  = None.
Proof.
  intros Hpre Hne H1 H2. unfold RegExp.ParsePattern.
  cbn [append RegExp.parse_from Ascii.eqb Bool.eqb andb].
  rewrite (parse_from_characters pre Hpre).
  cbn [append RegExp.parse_from Ascii.eqb Bool.eqb andb].
  unfold RegExp.empty_frame.
  rewrite (parse_from_join labels1 Hne H1).
  now apply parse_from_join_unmatched.
Qed.

Lemma ParsePattern_unterminated (pre post : string) (labels1 labels2 : list string) :
  RegExp.plain pre = true -> RegExp.plain post = true ->
  Forall (fun L => RegExp.plain L = true) labels1 ->
  Forall (fun L => RegExp.plain L = true) labels2 ->
  RegExp.ParsePattern
    ("^" ++ pre ++ "(" ++ join "|" labels1 ++ "(" ++ join "|" labels2
         ++ ")" ++ post ++ "$")
  = None.
Proof.
  intros Hpre Hpost H1 H2. unfold RegExp.ParsePattern.
  cbn [append RegExp.parse_from Ascii.eqb Bool.eqb andb].
  rewrite (parse_from_characters pre Hpre).
  cbn [append RegExp.parse_from Ascii.eqb Bool.eqb andb].
  destruct (parse_from_join_then_open labels1 H1 RegExp.empty_frame
              [RegExp.Frame (RegExp.closed (RegExp.push_term RegExp.AssertStart
                                              RegExp.empty_frame))
                 (rev (RegExp.characters pre)
                  ++ RegExp.current (RegExp.push_term RegExp.AssertStart
                                       RegExp.empty_frame))%list])
    as [F HF].
  rewrite HF. now apply parse_from_join_unterminated.
Qed.

(** X6.  A parenthesis inside a label is not escaped either.  With a label
    [w1(w2] or [w1)w2] in the table, whatever plain labels stand before and
    after it, both pattern texts are ill-formed and [new RegExp] throws a
    SyntaxError in every heap. *)
Theorem paren_in_label_is_a_syntax_error (good more : list string)
  (w1 w2 paren : string) (h : heap) :
  paren = "(" \/ paren = ")" ->
  Forall (fun L => RegExp.plain L = true) good ->
  Forall (fun L => RegExp.plain L = true) more ->
  RegExp.plain w1 = true -> RegExp.plain w2 = true ->
  exists source1 source2 : string,
    TemplateLiteral
      (text_template (join "|" (good ++ (w1 ++ paren ++ w2) :: more))) = Ok source1 /\
    TemplateLiteral
      (bg_template (join "|" (good ++ (w1 ++ paren ++ w2) :: more))) = Ok source2 /\
    new_RegExp source1 h = Throw SyntaxError /\
    new_RegExp source2 h = Throw SyntaxError.
Proof.
  intros Hparen Hgood Hmore H1 H2.
  assert (Hleft : Forall (fun L => RegExp.plain L = true) (good ++ [w1])).
  { apply Forall_app. split; [assumption | now repeat constructor]. }
  assert (Hright : Forall (fun L => RegExp.plain L = true) (w2 :: more))
    by now constructor.
  assert (Hne : (good ++ [w1])%list <> []) by now destruct good.
  eexists _, _. rewrite text_template_text, bg_template_text.
  split; [reflexivity|]. split; [reflexivity|].
  rewrite join_cut, join_cons_append.
  unfold new_RegExp, RegExp.RegExpCreate.
  destruct Hparen as [-> | ->].
  - pose proof (ParsePattern_unterminated "text-" "" _ _ eq_refl eq_refl Hleft Hright)
      as P1.
    pose proof (ParsePattern_unterminated "bg-" "/15" _ _ eq_refl eq_refl Hleft Hright)
      as P2.
    cbn [append] in *. rewrite !append_assoc. cbn [append].
    now rewrite P1, P2.
  - pose proof (ParsePattern_unmatched "text-" "$" _ _ eq_refl Hne Hleft Hright)
      as P1.
    pose proof (ParsePattern_unmatched "bg-" "/15$" _ _ eq_refl Hne Hleft Hright)
      as P2.
    cbn [append] in *. rewrite !append_assoc. cbn [append].
    now rewrite P1, P2.
Qed.

Lemma open_paren_in_label_throws :
  (("(" = "(" \/ "(" = ")") /\
   Forall (fun L => RegExp.plain L = true) ["Function"] /\
   Forall (fun L => RegExp.plain L = true) ["other"] /\
   RegExp.plain "a" = true /\ RegExp.plain "b" = true) /\
  exists source1 source2 : string,
    TemplateLiteral
      (text_template (join "|" (["Function"] ++ ("a" ++ "(" ++ "b") :: ["other"])))
    = Ok source1 /\
    TemplateLiteral
      (bg_template (join "|" (["Function"] ++ ("a" ++ "(" ++ "b") :: ["other"])))
    = Ok source2 /\
    new_RegExp source1 [] = Throw SyntaxError /\
    new_RegExp source2 [] = Throw SyntaxError.
Proof.
  assert (Hp : "(" = "(" \/ "(" = ")") by (left; reflexivity).
  assert (Hg : Forall (fun L => RegExp.plain L = true) ["Function"])
    by (repeat constructor).
  assert (Hm : Forall (fun L => RegExp.plain L = true) ["other"])
    by (repeat constructor).
  split; [repeat split; assumption || reflexivity|].
  exact (paren_in_label_is_a_syntax_error ["Function"] ["other"] "a" "b" "(" []
           Hp Hg Hm eq_refl eq_refl).
Defined.

(** X7.  With no label at all the patterns still compile: the group is
    empty and the patterns match exactly [text-] and [bg-/15]. *)
Theorem empty_table_patterns :
  exists (source1 source2 : string) (R1 R2 : RegExp.t),
    TemplateLiteral (text_template (join "|" [])) = Ok source1 /\
    TemplateLiteral (bg_template (join "|" [])) = Ok source2 /\
    RegExp.RegExpCreate source1 = Some R1 /\
    RegExp.RegExpCreate source2 = Some R2 /\
    (forall s : string, RegExp.test R1 s = true <-> s = "text-") /\
    (forall s : string, RegExp.test R2 s = true <-> s = "bg-/15").
Proof.
  assert (Hne : [""] <> []) by discriminate.
  assert (Hall : Forall (fun L => RegExp.plain L = true) [""])
    by (repeat constructor).
  destruct (templates_compile [""] Hne Hall) as [C1 C2].
  eexists _, _, _, _. rewrite text_template_text, bg_template_text.
  split; [reflexivity|]. split; [reflexivity|].
  split; [exact C1|]. split; [exact C2|].
  split; intros s.
  - rewrite test_text. split.
    + intros (L & [<- | []] & ->). reflexivity.
    + intros ->. exists "". split; [now left | reflexivity].
  - rewrite test_bg. split.
    + intros (L & [<- | []] & ->). reflexivity.
    + intros ->. exists "". split; [now left | reflexivity].
Qed.

End Interpolation.

(* ------------------------------------------------------------------ *)
(** ** The keys of an object *)

Section ObjectKeys.
Import JS Config.

Lemma insert_index_Permutation (k : N * string) (l : list (N * string)) :
  Permutation (insert_index k l) (k :: l).
Proof.
  induction l as [|k' l IH]; cbn [insert_index]; [reflexivity|].
  destruct (fst k <=? fst k')%N; [reflexivity|].
  rewrite IH. apply perm_swap.
Qed.

Lemma sort_index_Permutation (l : list (N * string)) :
  Permutation (fold_right insert_index [] l) l.
Proof.
  induction l as [|k l IH]; cbn [fold_right]; [reflexivity|].
  rewrite insert_index_Permutation. now constructor.
Qed.

Lemma indexed_keys (created : list string) :
  map snd (flat_map indexed created) = filter is_array_index created.
Proof.
  induction created as [|key created IH]; [reflexivity|].
  cbn [flat_map filter]. unfold indexed at 1, is_array_index at 1.
  destruct (array_index key); cbn [map app snd]; now rewrite IH.
Qed.

Lemma filter_split_Permutation {A : Type} (p : A -> bool) (l : list A) :
  Permutation (filter p l ++ filter (fun a => negb (p a)) l) l.
Proof.
  induction l as [|a l IH]; [reflexivity|].
  cbn [filter]. destruct (p a); cbn [negb app].
  - now constructor.
  - symmetry. apply Permutation_cons_app. now symmetry.
Qed.

Lemma OrdinaryOwnPropertyKeys_Permutation (created : list string) :
  Permutation (OrdinaryOwnPropertyKeys created) created.
Proof.
  unfold OrdinaryOwnPropertyKeys.
  rewrite (Permutation_map snd (sort_index_Permutation _)), indexed_keys.
  apply filter_split_Permutation.
Qed.

Lemma OrdinaryOwnPropertyKeys_in_order (created : list string) :
  (forall key, In key created -> is_array_index key = false) ->
  OrdinaryOwnPropertyKeys created = created.
Proof.
  intros H. unfold OrdinaryOwnPropertyKeys.
  assert (E : flat_map indexed created = []).
  { induction created as [|key created IH]; [reflexivity|].
    cbn [flat_map]. rewrite IH by (intros; apply H; now right).
    specialize (H key (or_introl eq_refl)).
    unfold indexed, is_array_index in *.
    now destruct (array_index key). }
  rewrite E. cbn [fold_right map app].
  induction created as [|key created IH]; [reflexivity|].
  cbn [filter]. rewrite (H key (or_introl eq_refl)). cbn [negb].
  f_equal. apply IH.
  - intros; apply H; now right.
  - cbn [flat_map] in E. now apply app_eq_nil in E.
Qed.

(** X8.  [Object.keys] of an object in the heap returns a fresh array and
    leaves the heap as it was otherwise.  The array holds every key of the
    object exactly as often as the object has it, whatever the keys are; when
    no key is an array index they come in order of creation. *)
Theorem Object_keys_loses_no_key (h : heap) (l : loc) (props : properties) :
  nth_error h l = Some (Ordinary props) ->
  exists ks : list string,
    Object_keys (VRef l) h
    = Ok (VRef (List.length h), (h ++ [ArrayObject (map VStr ks)])%list) /\
    Permutation ks (map fst props) /\
    ((forall key, In key (map fst props) -> is_array_index key = false) ->
     ks = map fst props).
Proof.
  intros H. exists (OrdinaryOwnPropertyKeys (map fst props)).
  split; [|split].
  - unfold Object_keys, bind, deref. rewrite H. reflexivity.
  - apply OrdinaryOwnPropertyKeys_Permutation.
  - apply OrdinaryOwnPropertyKeys_in_order.
Qed.

Lemma Object_keys_of_two_properties :
  nth_error [Ordinary [("b", VStr "x"); ("7", VStr "y")]] 0
  = Some (Ordinary [("b", VStr "x"); ("7", VStr "y")]) /\
  exists ks : list string,
    Object_keys (VRef 0) [Ordinary [("b", VStr "x"); ("7", VStr "y")]]
    = Ok (VRef 1,
          ([Ordinary [("b", VStr "x"); ("7", VStr "y")]]
           ++ [ArrayObject (map VStr ks)])%list) /\
    Permutation ks (map fst [("b", VStr "x"); ("7", VStr "y")]) /\
    ((forall key, In key (map fst [("b", VStr "x"); ("7", VStr "y")]) ->
                  is_array_index key = false) ->
     ks = map fst [("b", VStr "x"); ("7", VStr "y")]).
Proof.
  split; [reflexivity|].
  exact (Object_keys_loses_no_key
           [Ordinary [("b", VStr "x"); ("7", VStr "y")]] 0
           [("b", VStr "x"); ("7", VStr "y")] eq_refl).
Defined.

End ObjectKeys.

(* ------------------------------------------------------------------ *)
(** ** Sharing in the heap *)

Section Sharing.
Import JS Config.

Ltac run_step :=
  first
    [ apply steps_ObjectLiteral
    | apply steps_ArrayLiteral
    | eapply steps_Object_keys; reflexivity
    | eapply steps_Array_join; [reflexivity | lazy; reflexivity]
    | eapply steps_new_RegExp; lazy; reflexivity
    | eapply steps_lift; lazy; reflexivity ].

Ltac run :=
  repeat (eapply steps_bind; [run_step | cbn [List.length app]]); run_step.

(** X9.  The exported theme refers to the colour table itself, not to a
    copy.  In every heap [h] the module allocates the table first, at the
    first free location; [theme.extend.colors] of the exported object is a
    reference to that location, and no other object the module allocates
    holds the table. *)
Theorem theme_colors_is_the_table_itself (env : Constant -> string) (h : heap) :
  exists (root : val) (new : list object),
    module_body env h = Ok (root, (h ++ new)%list) /\
    nth_error (h ++ new)%list (List.length h)
    = Some (Ordinary
              (map (fun kv => (fst kv, VStr (evaluate env (snd kv)))) extraColors)) /\
    heap_path (h ++ new)%list root ["theme"; "extend"; "colors"]
    = Some (VRef (List.length h)) /\
    forall k : nat,
      nth_error new k
      = Some (Ordinary
                (map (fun kv => (fst kv, VStr (evaluate env (snd kv)))) extraColors)) ->
      k = 0.
Proof.
  assert (S : exists (k : nat) (new : list object),
             steps (module_body env) h [] (VRef (List.length h + k)) new /\
             nth_error new 0
             = Some (Ordinary
                       (map (fun kv => (fst kv, VStr (evaluate env (snd kv))))
                          extraColors)) /\
             heap_path (h ++ new)%list (VRef (List.length h + k))
               ["theme"; "extend"; "colors"]
             = Some (VRef (List.length h + 0)) /\
             forall j : nat,
               nth_error new j
               = Some (Ordinary
                         (map (fun kv => (fst kv, VStr (evaluate env (snd kv))))
                            extraColors)) ->
               j = 0).
  { do 2 eexists. split; [unfold module_body; run|].
    cbn [app]. split; [reflexivity|]. split.
    - cbn [heap_path heap_get].
      repeat (rewrite nth_error_new; cbn -[Nat.add]).
      reflexivity.
    - intros j Hj.
      do 12 (destruct j as [|j]; [try reflexivity; cbn in Hj; discriminate Hj|]).
      destruct j; discriminate Hj. }
  destruct S as (k & new & Hs & H0 & Hp & Hone).
  unfold steps in Hs. rewrite app_nil_r in Hs.
  exists (VRef (List.length h + k)), new.
  split; [exact Hs|]. split; [|split; [|exact Hone]].
  - rewrite <- (Nat.add_0_r (List.length h)), nth_error_new. exact H0.
  - rewrite Nat.add_0_r in Hp. exact Hp.
Qed.

End Sharing.

(* ------------------------------------------------------------------ *)
(** ** The colours of the table *)

Section Colours.
Import JS Config.

(** X10.  Two labels of the table have the same colour only when they are
    written as the same constant: the literal colours are pairwise distinct
    and differ from both constants, and the two constants differ. *)
Theorem same_colour_same_constant (L L' : string) (e e' : Initializer) :
  In (L, e) extraColors -> In (L', e') extraColors ->
  evaluate declared e = evaluate declared e' ->
  L = L' \/ exists x, e = Reference x /\ e' = Reference x.
Proof.
  intros H H' E. cbn in H, H'.
  repeat destruct H as [H|H]; try (exfalso; exact H); injection H as <- <-;
    repeat destruct H' as [H'|H']; try (exfalso; exact H');
      injection H' as <- <-;
      first [ discriminate E
            | left; reflexivity
            | right; eexists; split; reflexivity ].
Qed.

Lemma new_and_private_share_a_constant :
  (In ("new", Reference TAG_PURPLE) extraColors /\
   In ("private", Reference TAG_PURPLE) extraColors /\
   evaluate declared (Reference TAG_PURPLE)
   = evaluate declared (Reference TAG_PURPLE)) /\
  ("new" = "private" \/
   exists x, Reference TAG_PURPLE = Reference x /\ Reference TAG_PURPLE = Reference x).
Proof.
  assert (H : In ("new", Reference TAG_PURPLE) extraColors)
    by (do 7 right; left; reflexivity).
  assert (H' : In ("private", Reference TAG_PURPLE) extraColors)
    by (do 13 right; left; reflexivity).
  split; [repeat split; assumption|].
  exact (same_colour_same_constant "new" "private" (Reference TAG_PURPLE)
           (Reference TAG_PURPLE) H H' eq_refl).
Defined.

End Colours.
